(** * Age-gate decision pipeline of the browser extension (popup.js)

    A shallow embedding of the decision pipeline of [popup.js] and of the
    policy sink, the background script of the extension:

    - [interpretOutputToProbability]   (popup.js, lines 572-599)
    - the aggregation / verdict block of [analyzeFrame] (lines 922-991)
    - [updateSafeSearch]                (lines 673-715)
    - [analyzeFrame] itself            (lines 749-1049)
    - [setMinorMode], [enableSafeSearchRules], [disableSafeSearchRules]
      and the message listener of the background script

    Number model.  JavaScript numbers are modelled by the real numbers of
    the Standard Library: [Math.exp] is [exp], [Math.sqrt] is [sqrt],
    [Math.abs] is [Rabs], binary [Math.max]/[Math.min] are [Rmax]/[Rmin];
    the statements over this model are statements about the exact
    arithmetic the code writes down.  Where the rounding of doubles or the
    values NaN and Infinity decide what the code does, the functions are
    given again on other numbers: the interpreters on [Number.t], the
    reals with NaN and the two infinities (module [JS]); the mean of the
    passes on reals with a rounding after every operation (module
    [Rounded]) and on the binary64 floats of the kernel (module [Double]).
    Time stamps ([Date.now()]) are integers (milliseconds). *)

From Stdlib Require Import Reals Lra Lia ZArith List Permutation.
From stdpp Require Import base decidable option gmap strings.
From stdpp Require Import pretty.
From Stdlib Require Floats Uint63.
Import ListNotations.

Open Scope R_scope.

(** ** Comparisons of JavaScript numbers, as decidable propositions *)

#[global] Instance Rle_decision (x y : R) : Decision (x <= y) := Rle_dec x y.
#[global] Instance Rlt_decision (x y : R) : Decision (x < y) := Rlt_dec x y.
#[global] Instance Rge_decision (x y : R) : Decision (x >= y) := Rge_dec x y.
#[global] Instance Rgt_decision (x y : R) : Decision (x > y) := Rgt_dec x y.

(** ** The [Math] functions the pipeline uses on arrays *)

Module Math.

(** [arr.reduce((a, b) => a + b, 0)] *)
Definition sum (arr : list R) : R := fold_left Rplus arr 0.

(** [Math.min(...arr)]; the only call site has at least two elements
    (with no argument JavaScript gives [Infinity], which the model does
    not have: the empty case is 0 here and never reached). *)
Definition min (arr : list R) : R :=
  match arr with
  | [] => 0
  | x :: rest => fold_left Rmin rest x
  end.

(** [Math.max(...arr)], same remark. *)
Definition max (arr : list R) : R :=
  match arr with
  | [] => 0
  | x :: rest => fold_left Rmax rest x
  end.

End Math.

(** ** OutputInterpreter: [interpretOutputToProbability] *)

(** [outputData] is [None] for a missing ([undefined]/[null]) output
    array; the result [None] is the JavaScript [null]. *)
Definition interpretOutputToProbability (outputData : option (list R))
  : option R :=
  match outputData with
  | None => None
  | Some [] => None
  | Some [rawValue] =>
      let probability :=
        if decide (rawValue >= 0 /\ rawValue <= 1)
        then rawValue
        else 1 / (1 + exp (- rawValue)) in
      Some (Rmax 0 (Rmin 1 probability))
  | Some [o0; o1] =>
      let max := Rmax o0 o1 in
      let exps0 := exp (o0 - max) in
      let exps1 := exp (o1 - max) in
      let sum := exps0 + exps1 in
      let probability := exps1 / sum in
      Some (Rmax 0 (Rmin 1 probability))
  | Some _ => None
  end.

(** ** ProbabilityAggregator and VerdictDecider: the block of
       [analyzeFrame] after the passes (lines 922-991) *)

Inductive Prediction := MAJOR | MINOR.

#[global] Instance Prediction_eq_dec : EqDecision Prediction.
Proof. solve_decision. Defined.

Module Result.
Record t := mk {
  prediction : Prediction;
  confidence : R;
  isMinor : bool;
  probability : R;
  rawProbability : R;
  inferenceCount : nat
}.
End Result.

Section Aggregation.

Variable allProbabilities : list R.

(** [allProbabilities.reduce((a, b) => a + b, 0) / allProbabilities.length] *)
Definition avgProb : R :=
  Math.sum allProbabilities / INR (length allProbabilities).

Definition distanceFromThreshold : R := Rabs (avgProb - 0.5).

Definition minProb : R := Math.min allProbabilities.
Definition maxProb : R := Math.max allProbabilities.
Definition range : R := maxProb - minProb.

Definition stdDev : R :=
  sqrt (fold_left (fun sum p => sum + (p - avgProb) ^ 2) allProbabilities 0
        / INR (length allProbabilities)).

Definition majorVotes : nat :=
  length (filter (fun p => p >= 0.5) allProbabilities).
Definition minorVotes : nat :=
  length (filter (fun p => p < 0.5) allProbabilities).
Definition agreement : R :=
  INR (Nat.max majorVotes minorVotes) / INR (length allProbabilities).

(** The value of [confidence] when line 966 is reached. *)
Definition rawConfidence : R :=
  if decide (length allProbabilities = 1%nat) then
    Rmin 0.95 (0.5 + distanceFromThreshold * 1.5)
  else
    let confidence := agreement in
    let confidence :=
      if decide (stdDev < 0.1 /\ range < 0.2)
      then Rmin 0.95 (confidence * 1.2) else confidence in
    let confidence := Rmin 0.95 (confidence + distanceFromThreshold * 0.4) in
    let confidence :=
      if decide (stdDev > 0.15 \/ range > 0.3)
      then confidence * 0.85 else confidence in
    confidence.

(** Line 967: [Math.max(0.55, Math.min(0.95, confidence))]. *)
Definition clampedConfidence : R := Rmax 0.55 (Rmin 0.95 rawConfidence).

End Aggregation.

Definition MAJOR_THRESHOLD : R := 0.52.

(** The verdict step, as a function of the aggregated probability. *)
Definition prediction (avgProb : R) : Prediction :=
  if decide (avgProb >= MAJOR_THRESHOLD) then MAJOR else MINOR.

Definition isMinor (avgProb : R) : bool :=
  bool_decide (prediction avgProb = MINOR).

Definition thresholdDistance (avgProb : R) : R :=
  Rabs (avgProb -
        (if isMinor avgProb then 1 - MAJOR_THRESHOLD else MAJOR_THRESHOLD)).

(** Lines 978-982: the near-boundary penalty on the clamped confidence. *)
Definition adjustConfidence (avgProb confidence : R) : R :=
  if decide (thresholdDistance avgProb < 0.08)
  then Rmax 0.55 (confidence * 0.85)
  else confidence.

(** The [result] object of line 984. *)
Definition makeResult (allProbabilities : list R) : Result.t :=
  let avg := avgProb allProbabilities in
  Result.mk (prediction avg)
            (adjustConfidence avg (clampedConfidence allProbabilities))
            (isMinor avg)
            avg
            avg
            (length allProbabilities).

(** ** The world the popup and the background script act on *)

(** Values kept in [chrome.storage.local]. *)
Inductive JsVal :=
| VBool (b : bool)
| VNum (n : Z).

(** [{ type: "SET_SAFE", minor }] *)
Inductive Message := SET_SAFE (minor : bool).

(** The response object [{ ok, error }] of the background listener. *)
Record Response := mkResponse {
  ok : bool;
  error : option string
}.

(** The [state] object of popup.js (the fields the pipeline reads). *)
Record State := mkState {
  session : bool;                  (* [state.session] is loaded *)
  lastMinorState : option bool;    (* [null] or a boolean *)
  isAnalyzing : bool
}.

(** The DOM elements the pipeline writes to. *)
Record Elements := mkElements {
  resultText : string;
  resultCard : option Prediction;  (* class [major]/[minor], when active *)
  safesearchBadge : option bool;   (* active with class [on]/[off] *)
  errorBadge : bool;               (* class [active] *)
  errorText : string
}.

(** What lives outside the popup: the persistent store, the dynamic
    redirect rules of the background script, and the record of the calls
    of [chrome.runtime.sendMessage]. *)
Record Chrome := mkChrome {
  local : gmap string JsVal;
  dynamicRules : gset Z;
  sendMessageCalls : list Message
}.

Record World := mkWorld {
  state : State;
  elements : Elements;
  chrome : Chrome
}.

(** What the environment answers during one analysis cycle. *)
Inductive PassOutcome :=
| Throws                                   (* the pass throws *)
| Returns (outputData : option (list R)).  (* [output.data] *)

Inductive SendOutcome :=
| Delivered      (* the background listener runs and answers *)
| NoResponse     (* the callback is called with [undefined] *)
| SendThrows.    (* [chrome.runtime.sendMessage] throws *)

Record Env := mkEnv {
  infer : nat -> Z -> PassOutcome;         (* n-th call, padding *)
  sendOutcome : SendOutcome;
  updateDynamicRulesError : option string; (* message of the error thrown *)
  now : Z;                                 (* [Date.now()] at line 1018 *)
  windowWriteError : option string         (* the write of line 1019 rejects *)
}.

Record Config := mkConfig {
  FACE_PADDING : Z;
  TTA_PADDINGS : list Z
}.

Definition CONFIG : Config := mkConfig 25 [25%Z].

(** ** A state and exception monad for the asynchronous functions *)

Inductive Outcome (A : Type) :=
| Ok (a : A)
| Err (message : string).
Arguments Ok {A} a.
Arguments Err {A} message.

Record M (A : Type) := mkM { run : World -> Outcome A * World }.
Arguments mkM {A} run.
Arguments run {A} m w.

#[global] Instance M_ret : MRet M := fun A a => mkM (fun w => (Ok a, w)).

#[global] Instance M_bind : MBind M := fun A B f m =>
  mkM (fun w =>
         match run m w with
         | (Ok a, w') => run (f a) w'
         | (Err e, w') => (Err e, w')
         end).

Definition throw {A} (message : string) : M A :=
  mkM (fun w => (Err message, w)).

(** [try { m } catch (error) { handler(error) }] *)
Definition try_catch {A} (m : M A) (handler : string -> M A) : M A :=
  mkM (fun w =>
         match run m w with
         | (Ok a, w') => (Ok a, w')
         | (Err e, w') => run (handler e) w'
         end).

Definition get : M World := mkM (fun w => (Ok w, w)).
Definition modify (f : World -> World) : M unit := mkM (fun w => (Ok tt, f w)).

(** Field updates. *)
Definition set_lastMinorState (v : option bool) (w : World) : World :=
  mkWorld (mkState (session (state w)) v (isAnalyzing (state w)))
          (elements w) (chrome w).

Definition set_isAnalyzing (v : bool) (w : World) : World :=
  mkWorld (mkState (session (state w)) (lastMinorState (state w)) v)
          (elements w) (chrome w).

Definition set_elements (e : Elements) (w : World) : World :=
  mkWorld (state w) e (chrome w).

Definition set_chrome (c : Chrome) (w : World) : World :=
  mkWorld (state w) (elements w) c.

(** [chrome.storage.local.set({ key: v })] *)
Definition storage_set (key : string) (v : JsVal) (w : World) : World :=
  set_chrome (mkChrome (<[key := v]> (local (chrome w)))
                       (dynamicRules (chrome w))
                       (sendMessageCalls (chrome w))) w.

(** [await chrome.storage.local.set({ verificationAllowedUntil })], line
    1019: the promise is rejected when the environment says so, and the
    store is then left as it is. *)
Definition setVerificationWindow (env : Env) (allowedUntil : Z) : M unit :=
  match windowWriteError env with
  | Some message => throw message
  | None =>
      modify (storage_set "verificationAllowedUntil" (VNum allowedUntil))
  end.

(** ** The policy sink: the background script *)

Definition RULE_ID_GOOGLE : Z := 1001.
Definition RULE_ID_BING : Z := 1002.

(** The [{ success, error }] objects of the rule functions. *)
Record RulesResult := mkRulesResult {
  success : bool;
  rules_error : option string
}.

(** [chrome.declarativeNetRequest.updateDynamicRules]: the browser either
    throws (locked settings) or replaces the rules. *)
Definition updateDynamicRules (env : Env) (addRules removeRuleIds : list Z)
  : M unit :=
  match updateDynamicRulesError env with
  | Some message => throw message
  | None =>
      modify (fun w =>
        set_chrome
          (mkChrome (local (chrome w))
                    ((dynamicRules (chrome w) ∖ list_to_set removeRuleIds)
                       ∪ list_to_set addRules)
                    (sendMessageCalls (chrome w))) w)
  end.

(** [error.message || 'SafeSearch is locked by browser settings'] *)
Definition lockedMessage (message : string) : string :=
  if decide (message = "") then "SafeSearch is locked by browser settings"
  else message.

Definition enableSafeSearchRules (env : Env) : M RulesResult :=
  try_catch
    (updateDynamicRules env [RULE_ID_GOOGLE; RULE_ID_BING] [];;
     mret (mkRulesResult true None))
    (fun message => mret (mkRulesResult false (Some (lockedMessage message)))).

Definition disableSafeSearchRules (env : Env) : M RulesResult :=
  try_catch
    (updateDynamicRules env [] [RULE_ID_GOOGLE; RULE_ID_BING];;
     mret (mkRulesResult true None))
    (fun message => mret (mkRulesResult false (Some (lockedMessage message)))).

Definition setMinorMode (env : Env) (isMinor : bool) : M RulesResult :=
  modify (storage_set "isMinor" (VBool isMinor));;
  if isMinor then enableSafeSearchRules env else disableSafeSearchRules env.

(** The [chrome.runtime.onMessage] listener. *)
Definition onMessage (env : Env) (message : Message) : M Response :=
  match message with
  | SET_SAFE minor =>
      result ← setMinorMode env minor;
      mret (mkResponse (success result) (rules_error result))
  end.

(** [new Promise(resolve => chrome.runtime.sendMessage(message, resolve))]:
    the call is recorded, then the environment decides what comes back. *)
Definition sendMessage (env : Env) (message : Message) : M (option Response) :=
  modify (fun w =>
    set_chrome (mkChrome (local (chrome w)) (dynamicRules (chrome w))
                         (sendMessageCalls (chrome w) ++ [message])) w);;
  match sendOutcome env with
  | SendThrows => throw "Could not establish connection"
  | NoResponse => mret None
  | Delivered => response ← onMessage env message; mret (Some response)
  end.

(** ** PolicyController: [updateSafeSearch] *)

Definition badgeUpdated (isMinor : bool) (w : World) : World :=
  set_elements (mkElements (resultText (elements w)) (resultCard (elements w))
                           (Some isMinor) false (errorText (elements w))) w.

Definition errorShown (text : string) (w : World) : World :=
  set_elements (mkElements (resultText (elements w)) (resultCard (elements w))
                           (safesearchBadge (elements w)) true text) w.

(** [response.error] is truthy *)
Definition truthy (s : option string) : bool :=
  match s with
  | Some s => bool_decide (s <> "")
  | None => false
  end.

Definition updateSafeSearch (env : Env) (isMinor : bool) : M unit :=
  w ← get;
  if decide (lastMinorState (state w) = Some isMinor) then mret tt
  else
    modify (set_lastMinorState (Some isMinor));;
    try_catch
      (response ← sendMessage env (SET_SAFE isMinor);
       match response with
       | Some r =>
           if ok r then modify (badgeUpdated isMinor)
           else if truthy (error r) then
             modify (errorShown
               "SafeSearch is locked by browser settings. Classification successful, but cannot change automatically.")
           else mret tt
       | None => mret tt
       end)
      (fun _ =>
         modify (errorShown
           "Could not update SafeSearch. Classification successful.")).

(** ** InferenceOrchestrator and the analysis cycle: [analyzeFrame] *)

(** One iteration of the loop over [paddingValues] (lines 860-891):
    the new value of [allProbabilities].  The test [!isNaN(prob)] of line
    883 is always passed on real numbers; an output that makes the
    interpreter return NaN (see [JS.isValidProbability]) is discarded as a
    malformed one is. *)
Definition pass (env : Env) (padIdx : nat) (pad : Z)
  (allProbabilities : list R) : list R :=
  match infer env padIdx pad with
  | Throws => allProbabilities
  | Returns outputData =>
      match interpretOutputToProbability outputData with
      | Some prob =>
          if decide (prob >= 0 /\ prob <= 1)
          then allProbabilities ++ [prob]
          else allProbabilities
      | None => allProbabilities
      end
  end.

(** The loop, from index [padIdx] on. *)
Fixpoint passes (env : Env) (padIdx : nat) (paddingValues : list Z)
  (allProbabilities : list R) : list R :=
  match paddingValues with
  | [] => allProbabilities
  | pad :: rest =>
      passes env (S padIdx) rest (pass env padIdx pad allProbabilities)
  end.

(** The fallback pass (lines 896-915), run when the loop collected
    nothing; it is inference call number [length paddingValues]. *)
Definition fallback (cfg : Config) (env : Env) : M (list R) :=
  try_catch
    (match infer env (length (TTA_PADDINGS cfg)) (FACE_PADDING cfg) with
     | Throws => throw "Model inference failed"
     | Returns fallbackData =>
         match interpretOutputToProbability fallbackData with
         | Some prob =>
             if decide (prob >= 0 /\ prob <= 1)
             then mret [prob]
             else throw "Fallback inference returned invalid result"
         | None => throw "Fallback inference returned invalid result"
         end
     end)
    (fun _ =>
       throw "Failed to analyze image. Please ensure your face is clearly visible and try again.").

Definition resetUI (w : World) : World :=
  set_elements (mkElements "—" None None false (errorText (elements w))) w.

Definition predictionText (p : Prediction) : string :=
  match p with MAJOR => "MAJOR" | MINOR => "MINOR" end.

Definition showResult (result : Result.t) (w : World) : World :=
  set_elements
    (mkElements (predictionText (Result.prediction result))
                (Some (if Result.isMinor result then MINOR else MAJOR))
                (safesearchBadge (elements w)) (errorBadge (elements w))
                (errorText (elements w))) w.

Definition showError (w : World) : World :=
  set_elements
    (mkElements "Error" None
                (safesearchBadge (elements w)) (errorBadge (elements w))
                (errorText (elements w))) w.

(** The [try] block of [analyzeFrame]; it yields the [result] object.
    Frame capture and face detection, which come before the passes, act
    on the canvas only and are not modelled ([detectAndDrawFaces] catches
    its own errors); their outcome reaches the passes through [infer]. *)
Definition analyzeFrame_try (cfg : Config) (env : Env) : M Result.t :=
  modify resetUI;;
  w ← get;
  if negb (session (state w)) then throw "Model not loaded"
  else
    let allProbabilities := passes env 0 (TTA_PADDINGS cfg) [] in
    allProbabilities ←
      (if decide (length allProbabilities = 0%nat)
       then fallback cfg env
       else mret allProbabilities);
    if decide (length allProbabilities = 0%nat)
    then throw "No valid predictions obtained"
    else
      let result := makeResult allProbabilities in
      modify (showResult result);;
      updateSafeSearch env (Result.isMinor result);;
      try_catch (setVerificationWindow env (now env + 60 * 60 * 1000))
                (fun _ => mret tt);;
      mret result.

(** How a cycle ends (the function itself returns [undefined]). *)
Inductive Cycle :=
| Skipped                          (* another analysis was in progress *)
| Completed (result : Result.t)    (* the [try] block ran to its end *)
| Failed (errorMsg : string).      (* the [catch] block ran *)

Definition analyzeFrame (cfg : Config) (env : Env) (w : World)
  : Cycle * World :=
  if isAnalyzing (state w) then (Skipped, w)
  else
    match run (analyzeFrame_try cfg env) (set_isAnalyzing true w) with
    | (Ok result, w') => (Completed result, set_isAnalyzing false w')
    | (Err errorMsg, w') =>
        (Failed errorMsg, set_isAnalyzing false (showError w'))
    end.

(** ** Definitions the statements use *)

(** The spec's arithmetic mean: the sum of the values over their number. *)
Definition mean (l : list R) : R := fold_right Rplus 0 l / INR (length l).


(** The sink call of one invocation failed: the message was not
    delivered, or the browser refused the rule update. *)
Definition sinkFails (env : Env) : Prop :=
  sendOutcome env <> Delivered \/ updateDynamicRulesError env <> None.

(** The probability a pass contributes, if any: the test of lines 882-886
    (and 904-910 for the fallback pass). *)
Definition validProbability (o : PassOutcome) : option R :=
  match o with
  | Throws => None
  | Returns outputData =>
      match interpretOutputToProbability outputData with
      | Some prob => if decide (prob >= 0 /\ prob <= 1) then Some prob else None
      | None => None
      end
  end.

(** The probabilities the aggregation runs on: those of the loop, or the
    one of the fallback pass when the loop collected none. *)
Definition finalProbabilities (cfg : Config) (env : Env) : list R :=
  let allProbabilities := passes env 0 (TTA_PADDINGS cfg) [] in
  if decide (length allProbabilities = 0%nat)
  then option_list
         (validProbability
            (infer env (length (TTA_PADDINGS cfg)) (FACE_PADDING cfg)))
  else allProbabilities.

(** Lines 984-1020, once the probabilities are there. *)
Definition conclude (env : Env) (result : Result.t) : M Result.t :=
  modify (showResult result);;
  updateSafeSearch env (Result.isMinor result);;
  try_catch (setVerificationWindow env (now env + 60 * 60 * 1000))
            (fun _ => mret tt);;
  mret result.

(** What lines 1017-1020 leave: the window written, or the world as it
    was when the write is rejected. *)
Definition windowWritten (env : Env) (w : World) : World :=
  match windowWriteError env with
  | Some _ => w
  | None =>
      storage_set "verificationAllowedUntil"
                  (VNum (now env + 60 * 60 * 1000)) w
  end.

Definition analysisFailedMessage : string :=
  "Failed to analyze image. Please ensure your face is clearly visible and try again.".

(** The world in which the controller is called in a completing cycle. *)
Definition beforePolicy (result : Result.t) (w : World) : World :=
  showResult result (resetUI (set_isAnalyzing true w)).

(** The valid probabilities of the passes, in pass order. *)
Fixpoint validProbabilities (env : Env) (padIdx : nat)
  (paddingValues : list Z) : list R :=
  match paddingValues with
  | [] => []
  | pad :: rest =>
      option_list (validProbability (infer env padIdx pad))
        ++ validProbabilities env (S padIdx) rest
  end.

(** ** Concrete inputs *)

(** A popup with a loaded model, nothing recorded, nothing stored. *)
Definition world0 : World :=
  mkWorld (mkState true None false)
          (mkElements "" None None false "")
          (mkChrome ∅ ∅ []).


(** The classifier is unreachable. *)
Definition envUnavailable : Env :=
  mkEnv (fun _ _ => Throws) Delivered None 1000 None.

(** The classifier answers 0.46, the sink is as given. *)
Definition envSink (so : SendOutcome) (ue : option string) : Env :=
  mkEnv (fun _ _ => Returns (Some [0.46])) so ue 1000 None.

(** The classifier answers 0.46 and the sink works; the store rejects the
    write of the verification window. *)
Definition envWindowRejected : Env :=
  mkEnv (fun _ _ => Returns (Some [0.46])) Delivered None 1000
        (Some "QUOTA_BYTES quota exceeded").

(** Three paddings: a malformed output, a valid one, a throwing pass. *)
Definition CONFIG3 : Config := mkConfig 25 [20%Z; 25%Z; 30%Z].

Definition envMixed : Env :=
  mkEnv (fun padIdx _ =>
           match padIdx with
           | 0%nat => Returns (Some [0.1; 0.2; 0.3])
           | 1%nat => Returns (Some [0.46])
           | _ => Throws
           end)
        Delivered None 1000 None.

(** * The rest of the pipeline *)

(** ** RegionSelector: [cropFaceRegion] (popup.js, lines 236-309) *)

(** A detection of the face detector: two corners in frame coordinates
    and, when present, a probability. *)
Module Face.
Record t := mk {
  topLeft : R * R;
  bottomRight : R * R;
  probability : option R
}.
End Face.

(** The size of a canvas; its pixels are not modelled. *)
Module Canvas.
Record t := mk {
  width : Z;
  height : Z
}.
End Canvas.

(** What [cropFaceRegion] returns: the source canvas itself, or a new
    canvas holding the given rectangle of the source. *)
Inductive Region :=
| FullFrame
| Cropped (cropX cropY cropWidth cropHeight : Z).

Definition MIN_FACE_SIZE : Z := 50.

(** [width * height] of a detection, as the loop computes it. *)
Definition faceArea (face : Face.t) : R :=
  let tl := Face.topLeft face in
  let br := Face.bottomRight face in
  let width := br.1 - tl.1 in
  let height := br.2 - tl.2 in
  width * height.

(** The loop of lines 246-257, with its two variables. *)
Fixpoint largestFaceLoop (faces : list Face.t) (largestFace : Face.t)
  (maxArea : R) : Face.t :=
  match faces with
  | [] => largestFace
  | face :: rest =>
      if decide (faceArea face > maxArea)
      then largestFaceLoop rest face (faceArea face)
      else largestFaceLoop rest largestFace maxArea
  end.

(** Lines 243-257: [faces[0]] to start with, then the loop over all. *)
Definition largestFace (faces : list Face.t) : option Face.t :=
  match faces with
  | [] => None
  | face0 :: _ => Some (largestFaceLoop faces face0 0)
  end.

(** Lines 260-262; [None] is an override that is not a number. *)
Definition paddingPercent (cfg : Config) (overridePaddingPct : option R) : R :=
  match overridePaddingPct with
  | Some pct => Rmax 0 (Rmin 50 pct)
  | None => IZR (FACE_PADDING cfg)
  end.

(** Lines 263-288 for the chosen face.  The products under the two
    [Math.floor] of lines 281-282 are exact here; the code floors the
    product of two doubles, which can be one pixel less (a face of 100
    pixels with 29 percent pads 28). *)
Definition cropLargest (cfg : Config) (sourceCanvas : Canvas.t)
  (largestFace : Face.t) (overridePaddingPct : option R) : Region :=
  let padding := paddingPercent cfg overridePaddingPct / 100 in
  let x1 := Zfloor (Face.topLeft largestFace).1 in
  let y1 := Zfloor (Face.topLeft largestFace).2 in
  let x2 := Zceil (Face.bottomRight largestFace).1 in
  let y2 := Zceil (Face.bottomRight largestFace).2 in
  let faceWidth := (x2 - x1)%Z in
  let faceHeight := (y2 - y1)%Z in
  if decide (faceWidth < MIN_FACE_SIZE \/ faceHeight < MIN_FACE_SIZE)%Z
  then FullFrame
  else
    let padX := Zfloor (IZR faceWidth * padding) in
    let padY := Zfloor (IZR faceHeight * padding) in
    let cropX := Z.max 0 (x1 - padX) in
    let cropY := Z.max 0 (y1 - padY) in
    let cropWidth :=
      Z.min (Canvas.width sourceCanvas - cropX) (faceWidth + 2 * padX) in
    let cropHeight :=
      Z.min (Canvas.height sourceCanvas - cropY) (faceHeight + 2 * padY) in
    Cropped cropX cropY cropWidth cropHeight.

(** [faces] is [None] for [null]. *)
Definition cropFaceRegion (cfg : Config) (sourceCanvas : Canvas.t)
  (faces : option (list Face.t)) (overridePaddingPct : option R) : Region :=
  match faces with
  | None => FullFrame
  | Some faces =>
      match largestFace faces with
      | None => FullFrame
      | Some face => cropLargest cfg sourceCanvas face overridePaddingPct
      end
  end.

(** ** Face detection: the filter of [detectAndDrawFaces] (lines 414-534) *)

Inductive DetectOutcome :=
| DetectThrows                                     (* the [catch] block runs *)
| Detects (detectionResults : option (list Face.t)).

(** [face.probability !== undefined ? face.probability > 0.5 : true] *)
Definition confident (face : Face.t) : Prop :=
  match Face.probability face with
  | Some probability => probability > 0.5
  | None => True
  end.

#[global] Instance confident_dec (face : Face.t) : Decision (confident face).
Proof. unfold confident. destruct (Face.probability face); apply _. Defined.

(** The value of [faces] the function returns; [hasDetector] stands for
    [state.hasDetector && state.blaze].  The drawing on the overlay canvas
    is not modelled. *)
Definition detectAndDrawFaces (hasDetector : bool) (outcome : DetectOutcome)
  : option (list Face.t) :=
  if hasDetector then
    match outcome with
    | DetectThrows => None
    | Detects detectionResults =>
        match detectionResults with
        | Some ((_ :: _) as results) =>
            let faces := filter confident results in
            if decide (length faces = 0%nat) then Some results else Some faces
        | other => other
        end
    end
  else None.

(** ** FramePreprocessor: the normalisation loop of [preprocessImage]
       (lines 388-405) *)

#[global] Instance R_inhabited : Inhabited R := populate 0.

Definition MEAN : list R := [0.485; 0.456; 0.406].
Definition STD : list R := [0.229; 0.224; 0.225].

(** One iteration: pixel [i] of the RGBA array [pixels] goes to the three
    planes of the tensor, each of [n] entries.  The array of
    [getImageData] has 4 n bytes, so that every read is in range (a read
    beyond a shorter list gives 0 here). *)
Definition normalizeStep (n : nat) (pixels : list Z) (inputTensor : list R)
  (i : nat) : list R :=
  let pixelIndex := (i * 4)%nat in
  let r := IZR (pixels !!! pixelIndex) / 255 in
  let g := IZR (pixels !!! (pixelIndex + 1)%nat) / 255 in
  let b := IZR (pixels !!! (pixelIndex + 2)%nat) / 255 in
  let inputTensor :=
    <[i := (r - MEAN !!! 0%nat) / STD !!! 0%nat]> inputTensor in
  let inputTensor :=
    <[(n + i)%nat := (g - MEAN !!! 1%nat) / STD !!! 1%nat]> inputTensor in
  <[(2 * n + i)%nat := (b - MEAN !!! 2%nat) / STD !!! 2%nat]> inputTensor.

(** The tensor data for a [TARGET_SIZE] x [TARGET_SIZE] image: a zeroed
    array of [3 * n] entries, filled by the loop.  The rounding to 32-bit
    floats of the [Float32Array] is outside the number model. *)
Definition normalize (TARGET_SIZE : nat) (pixels : list Z) : list R :=
  let n := (TARGET_SIZE * TARGET_SIZE)%nat in
  fold_left (normalizeStep n pixels) (seq 0 n) (replicate (3 * n) 0).

(** The value the loop stores for channel [c] of pixel [i]. *)
Definition normalized (pixels : list Z) (c i : nat) : R :=
  (IZR (pixels !!! (i * 4 + c)%nat) / 255 - MEAN !!! c) / STD !!! c.

(** ** JavaScript numbers with their special values

    A model output can hold NaN and the two infinities.  [Number.t] adds
    them to the reals, with the operations of IEEE 754 on them; on finite
    values the arithmetic is exact, as above, and the two zeros are one
    (a zero divisor counts as +0). *)

#[global] Instance R_eq_decision : EqDecision R := Req_dec_T.

Module Number.

Inductive t :=
| Finite (x : R)
| NaN
| PosInfinity
| NegInfinity.

Definition infinity (positive : bool) : t :=
  if positive then PosInfinity else NegInfinity.

(** [-a] *)
Definition neg (a : t) : t :=
  match a with
  | Finite x => Finite (- x)
  | NaN => NaN
  | PosInfinity => NegInfinity
  | NegInfinity => PosInfinity
  end.

(** [a + b] *)
Definition add (a b : t) : t :=
  match a, b with
  | NaN, _ | _, NaN => NaN
  | Finite x, Finite y => Finite (x + y)
  | PosInfinity, NegInfinity | NegInfinity, PosInfinity => NaN
  | PosInfinity, _ | _, PosInfinity => PosInfinity
  | NegInfinity, _ | _, NegInfinity => NegInfinity
  end.

(** [a - b] *)
Definition sub (a b : t) : t := add a (neg b).

(** [a * b] *)
Definition mul (a b : t) : t :=
  match a, b with
  | NaN, _ | _, NaN => NaN
  | Finite x, Finite y => Finite (x * y)
  | Finite x, PosInfinity | PosInfinity, Finite x =>
      if decide (x = 0) then NaN else infinity (bool_decide (x > 0))
  | Finite x, NegInfinity | NegInfinity, Finite x =>
      if decide (x = 0) then NaN else infinity (bool_decide (x < 0))
  | PosInfinity, PosInfinity | NegInfinity, NegInfinity => PosInfinity
  | PosInfinity, NegInfinity | NegInfinity, PosInfinity => NegInfinity
  end.

(** [a / b] *)
Definition div (a b : t) : t :=
  match a, b with
  | NaN, _ | _, NaN => NaN
  | Finite x, Finite y =>
      if decide (y = 0)
      then if decide (x = 0) then NaN else infinity (bool_decide (x > 0))
      else Finite (x / y)
  | Finite _, (PosInfinity | NegInfinity) => Finite 0
  | PosInfinity, Finite y => infinity (bool_decide (y >= 0))
  | NegInfinity, Finite y => infinity (bool_decide (y < 0))
  | (PosInfinity | NegInfinity), (PosInfinity | NegInfinity) => NaN
  end.

(** [Math.exp(a)] *)
Definition exp (a : t) : t :=
  match a with
  | Finite x => Finite (Rtrigo_def.exp x)
  | NaN => NaN
  | PosInfinity => PosInfinity
  | NegInfinity => Finite 0
  end.

(** [Math.abs(a)] *)
Definition abs (a : t) : t :=
  match a with
  | Finite x => Finite (Rabs x)
  | NaN => NaN
  | PosInfinity | NegInfinity => PosInfinity
  end.

(** [a >= b]: false when one side is NaN. *)
Definition ge (a b : t) : bool :=
  match a, b with
  | NaN, _ | _, NaN => false
  | Finite x, Finite y => bool_decide (x >= y)
  | PosInfinity, _ | _, NegInfinity => true
  | _, PosInfinity | NegInfinity, _ => false
  end.

(** [a <= b] *)
Definition le (a b : t) : bool := ge b a.

(** [Math.max(a, b)]: NaN when an argument is NaN. *)
Definition max (a b : t) : t :=
  match a, b with
  | NaN, _ | _, NaN => NaN
  | _, _ => if ge a b then a else b
  end.

(** [Math.min(a, b)] *)
Definition min (a b : t) : t :=
  match a, b with
  | NaN, _ | _, NaN => NaN
  | _, _ => if le a b then a else b
  end.


End Number.

(** ** The interpreters on JavaScript numbers *)

Module Interpretation.
Record t := mk {
  prediction : Prediction;
  confidence : Number.t;
  isMinor : bool;
  probability : Number.t;
  rawProbability : Number.t
}.
End Interpretation.

Module JS.

(** [interpretOutputToProbability] (lines 572-599) on an output that can
    hold the special values. *)
Definition interpretOutputToProbability (outputData : option (list Number.t))
  : option Number.t :=
  match outputData with
  | None => None
  | Some [] => None
  | Some [rawValue] =>
      let probability :=
        if Number.ge rawValue (Number.Finite 0)
           && Number.le rawValue (Number.Finite 1)
        then rawValue
        else Number.div (Number.Finite 1)
               (Number.add (Number.Finite 1)
                  (Number.exp (Number.neg rawValue))) in
      Some (Number.max (Number.Finite 0)
              (Number.min (Number.Finite 1) probability))
  | Some [o0; o1] =>
      let max := Number.max o0 o1 in
      let exps0 := Number.exp (Number.sub o0 max) in
      let exps1 := Number.exp (Number.sub o1 max) in
      let sum := Number.add exps0 exps1 in
      let probability := Number.div exps1 sum in
      Some (Number.max (Number.Finite 0)
              (Number.min (Number.Finite 1) probability))
  | Some _ => None
  end.


(** [interpretModelOutput] (lines 604-660), the interpreter that no other
    function calls. *)
Definition interpretModelOutput (outputData : option (list Number.t))
  : Outcome Interpretation.t :=
  match outputData with
  | None => Err "Empty model output"
  | Some [] => Err "Empty model output"
  | Some outputData =>
      let probability :=
        match outputData with
        | [rawValue] =>
            Ok (if Number.ge rawValue (Number.Finite 0)
                   && Number.le rawValue (Number.Finite 1)
                then rawValue
                else Number.div (Number.Finite 1)
                       (Number.add (Number.Finite 1)
                          (Number.exp (Number.neg rawValue))))
        | [o0; o1] =>
            let max := Number.max o0 o1 in
            let exps0 := Number.exp (Number.sub o0 max) in
            let exps1 := Number.exp (Number.sub o1 max) in
            let sum := Number.add exps0 exps1 in
            Ok (Number.div exps1 sum)
        | _ =>
            Err ("Unexpected model output length: "
                 +:+ pretty (length outputData))
        end in
      match probability with
      | Err message => Err message
      | Ok probability =>
          let probability :=
            Number.max (Number.Finite 0)
              (Number.min (Number.Finite 1) probability) in
          let prediction :=
            if Number.ge probability (Number.Finite 0.5)
            then MAJOR else MINOR in
          let confidence :=
            Number.mul
              (Number.abs (Number.sub probability (Number.Finite 0.5)))
              (Number.Finite 2) in
          Ok (Interpretation.mk prediction confidence
                (bool_decide (prediction = MINOR)) probability probability)
      end
  end.

End JS.

(** ** The mean of the passes in floating point

    Line 922 adds doubles, and a sum of doubles depends on the order of
    its terms.  Two models of the floating-point arithmetic of the
    aggregation:
    - [Rounded]: the numbers are reals and every arithmetic operation is
      followed by a rounding [rnd], of which the statements assume what
      IEEE 754 gives (for binary64 a relative error of 2^-53 and, for
      results near zero, an absolute error of 2^-1075);
    - [Double]: the numbers are the binary64 floats of the kernel, with
      their own operations, on which the line can be computed. *)

Module Rounded.
Section Rounding.

Variable rnd : R -> R.

(** [arr.reduce((a, b) => a + b, 0)] *)
Definition sum (arr : list R) : R :=
  fold_left (fun a b => rnd (a + b)) arr 0.

(** Line 922; the length of the array is an exact number. *)
Definition avgProb (allProbabilities : list R) : R :=
  rnd (sum allProbabilities / INR (length allProbabilities)).

(** [maxProb - minProb] *)
Definition range (allProbabilities : list R) : R :=
  rnd (maxProb allProbabilities - minProb allProbabilities).

(** [Math.max(majorVotes, minorVotes) / allProbabilities.length] *)
Definition agreement (allProbabilities : list R) : R :=
  rnd (INR (Nat.max (majorVotes allProbabilities)
                    (minorVotes allProbabilities))
       / INR (length allProbabilities)).

End Rounding.
End Rounded.

Set Warnings "-inexact-float".

Module Double.
Import PrimFloat.

(** [arr.reduce((a, b) => a + b, 0)] *)
Definition sum (arr : list float) : float := fold_left add arr 0%float.

(** Line 922. *)
Definition avgProb (allProbabilities : list float) : float :=
  (sum allProbabilities
   / of_uint63 (Uint63.of_nat (length allProbabilities)))%float.

Definition MAJOR_THRESHOLD : float := 0.52%float.

(** Lines 973-974. *)
Definition prediction (avgProb : float) : Prediction :=
  if (MAJOR_THRESHOLD <=? avgProb)%float then MAJOR else MINOR.

Definition isMinor (avgProb : float) : bool :=
  bool_decide (prediction avgProb = MINOR).

End Double.

(** ** The page gate of the content script: [checkAndApply] *)

(** The parts of a page the content script touches. *)
Record Page := mkPage {
  overlay : bool;          (* the overlay element is in the document *)
  blockClass : bool;       (* the block class is on the root element *)
  overflowHidden : bool    (* [style.overflow] is ['hidden'] *)
}.

Definition blockPage (page : Page) : Page :=
  if overlay page then page else mkPage true true true.

Definition unblockPage (page : Page) : Page := mkPage false false false.

(** [!verificationAllowedUntil || typeof verificationAllowedUntil !==
    'number' || now() > verificationAllowedUntil] *)
Definition mustBlock (verificationAllowedUntil : option JsVal) (now : Z)
  : bool :=
  match verificationAllowedUntil with
  | Some (VNum n) => bool_decide (n = 0%Z) || bool_decide (now > n)%Z
  | Some (VBool _) => true
  | None => true
  end.

(** [getThrows]: the read of the store throws, which the function
    ignores. *)
Definition checkAndApply (getThrows : bool) (now : Z)
  (store : gmap string JsVal) (page : Page) : Page :=
  if getThrows then page
  else if mustBlock (store !! "verificationAllowedUntil") now
       then blockPage page
       else unblockPage page.

(** ** The background script at installation *)

#[global] Instance SendOutcome_eq_dec : EqDecision SendOutcome.
Proof. solve_decision. Defined.

(** Truth value of a stored value ([undefined] when the key is absent). *)
Definition truthyVal (v : option JsVal) : bool :=
  match v with
  | Some (VBool b) => b
  | Some (VNum n) => bool_decide (n <> 0%Z)
  | None => false
  end.

(** The [chrome.runtime.onInstalled] listener. *)
Definition onInstalled (env : Env) : M unit :=
  w ← get;
  if truthyVal (local (chrome w) !! "isMinor")
  then result ← enableSafeSearchRules env; mret ()
  else mret ().

(** ** Consent, start-up and camera control of the popup *)

(** An error object: [name] and [message]. *)
Record JsError := mkJsError {
  name : string;
  message : string
}.

(** [new Error(message)] *)
Definition newError (message : string) : JsError := mkJsError "Error" message.

(** The popup beyond the analysis: the fields of [state] and the elements
    that [startCamera], [stopCamera] and [initialize] use, and counters of
    the calls that leave the popup. *)
Record Popup := mkPopup {
  world : World;
  running : bool;             (* [state.running] *)
  stream : bool;              (* [state.stream] is set *)
  hasDetector : bool;         (* [state.hasDetector] *)
  statusText : string;
  startBtnDisabled : bool;
  stopBtnDisabled : bool;
  openSettingsShown : bool;
  consentWindows : nat;       (* calls of [chrome.windows.create] *)
  cameraRequests : nat        (* calls of [getUserMedia] *)
}.

(** What the browser answers while the camera is started. *)
Record CameraEnv := mkCameraEnv {
  consentReadThrows : bool;           (* the read of [consentGiven] throws *)
  mediaDevicesAvailable : bool;
  idealRequest : option JsError;      (* [None]: the stream is granted *)
  fallbackRequest : option JsError;
  videoReady : option JsError;        (* metadata wait and [play()] *)
  detectorLoads : bool;               (* outcome of [initializeDetector] *)
  modelLoads : bool;                  (* outcome of [initializeModel] *)
  videoResumes : option JsError;      (* [play()] of line 1203 *)
  analysis : Env
}.

Definition set_world (w : World) (p : Popup) : Popup :=
  mkPopup w (running p) (stream p) (hasDetector p) (statusText p)
          (startBtnDisabled p) (stopBtnDisabled p) (openSettingsShown p)
          (consentWindows p) (cameraRequests p).

Definition set_statusText (s : string) (p : Popup) : Popup :=
  mkPopup (world p) (running p) (stream p) (hasDetector p) s
          (startBtnDisabled p) (stopBtnDisabled p) (openSettingsShown p)
          (consentWindows p) (cameraRequests p).

Definition set_session (v : bool) (w : World) : World :=
  mkWorld (mkState v (lastMinorState (state w)) (isAnalyzing (state w)))
          (elements w) (chrome w).

(** [checkConsent] (lines 117-141): the answer, and the popup with the
    consent window opened when the answer is no (that the popup then
    closes itself is not modelled). *)
Definition checkConsent (env : CameraEnv) (p : Popup) : bool * Popup :=
  if consentReadThrows env then (false, p)
  else if truthyVal (local (chrome (world p)) !! "consentGiven")
       then (true, p)
       else (false,
             mkPopup (world p) (running p) (stream p) (hasDetector p)
                     (statusText p) (startBtnDisabled p) (stopBtnDisabled p)
                     (openSettingsShown p) (S (consentWindows p))
                     (cameraRequests p)).

(** The click handler of the accept button of the consent page. *)
Definition acceptConsent (now : Z) (w : World) : World :=
  set_chrome
    (mkChrome (<["consentTimestamp" := VNum now]>
                 (<["consentGiven" := VBool true]> (local (chrome w))))
              (dynamicRules (chrome w)) (sendMessageCalls (chrome w))) w.

(** [typeof isMinor === 'boolean' ? isMinor : null] *)
Definition lastStateOf (isMinor : option JsVal) : option bool :=
  match isMinor with
  | Some (VBool b) => Some b
  | _ => None
  end.

(** [initialize] (lines 1299-1338) up to its return; the two preloads it
    starts are not awaited and set their state later, but for the status
    text that [initializeModel] writes before its first [await]. *)
Definition initialize (env : CameraEnv) (p : Popup) : Popup :=
  let '(hasConsent, p) := checkConsent env p in
  if negb hasConsent then
    mkPopup (world p) (running p) (stream p) (hasDetector p)
            "Please accept terms to continue" true (stopBtnDisabled p)
            (openSettingsShown p) (consentWindows p) (cameraRequests p)
  else
    set_statusText "Loading AI model..."
      (set_world
         (set_lastMinorState
            (lastStateOf (local (chrome (world p)) !! "isMinor")) (world p))
         p).

(** [errorMessage.includes('not supported')] *)
Definition includes (needle haystack : string) : bool :=
  bool_decide (is_Some (String.index 0 needle haystack)).

(** [s] between double quotes (character 34). *)
Definition quoted (s : string) : string :=
  String (Ascii.ascii_of_nat 34)
         (s +:+ String (Ascii.ascii_of_nat 34) EmptyString).

(** The status text of line 1220. *)
Definition cameraDeniedStatus : string :=
  "Camera access denied. Click " +:+ quoted "Allow"
    +:+ " when prompted, or check browser settings.".

(** The [catch] block of [startCamera] (lines 1207-1242). *)
Definition cameraFailed (error : JsError) (p : Popup) : Popup :=
  let errorName :=
    if decide (name error <> "") then name error
    else if decide (message error <> "") then message error
    else "Unknown" in
  let errorMessage := message error in
  let '(status, settings) :=
    if decide (errorName = "NotAllowedError"
               \/ errorName = "PermissionDeniedError"
               \/ errorMessage = "CAMERA_PERMISSION_DENIED")
    then (cameraDeniedStatus, true)
    else if decide (errorName = "NotFoundError")
    then ("No camera found. Please connect a camera device.",
          openSettingsShown p)
    else if decide (errorName = "NotReadableError"
                    \/ errorName = "TrackStartError")
    then ("Camera is in use by another app. Please close other apps using the camera.",
          openSettingsShown p)
    else if includes "not supported" errorMessage
    then ("Camera API not supported in this browser. Please use Chrome or Edge.",
          openSettingsShown p)
    else ("Camera error: "
            +:+ (if decide (message error <> "") then message error
                 else name error)
            +:+ ". Please try again.",
          true) in
  mkPopup (world p) false (stream p) (hasDetector p) status false true
          settings (consentWindows p) (cameraRequests p).

(** Lines 1082-1119: the request for the camera; [None] when a stream
    was granted. *)
Definition requestCamera (env : CameraEnv) (p : Popup)
  : option JsError * Popup :=
  let asked (p : Popup) :=
    mkPopup (world p) (running p) (stream p) (hasDetector p) (statusText p)
            (startBtnDisabled p) (stopBtnDisabled p) (openSettingsShown p)
            (consentWindows p) (S (cameraRequests p)) in
  match idealRequest env with
  | None => (None, asked p)
  | Some constraintError =>
      if decide (name constraintError = "OverconstrainedError") then
        (fallbackRequest env, asked (asked p))
      else if decide (name constraintError = "NotAllowedError"
                      \/ name constraintError = "PermissionDeniedError")
      then (Some (newError "CAMERA_PERMISSION_DENIED"), asked p)
      else (Some constraintError, asked p)
  end.

(** What [analyzeFrame] leaves in the status line. *)
Definition cycleStatus (cycle : Cycle) (statusText : string) : string :=
  match cycle with
  | Skipped => statusText
  | Completed _ => "Analysis complete!"
  | Failed errorMsg =>
      "Analysis failed: " +:+ errorMsg +:+ ". Please try again."
  end.

(** Lines 1173-1183: the detector and the model are loaded if they are
    not there; [false] when the model could not be loaded.  The status
    texts that [initializeModel] writes are overwritten before
    [startCamera] returns and are left out. *)
Definition loadModels (env : CameraEnv) (p : Popup) : bool * Popup :=
  let p :=
    if hasDetector p then p
    else mkPopup (world p) (running p) (stream p) (detectorLoads env)
                 (statusText p) (startBtnDisabled p) (stopBtnDisabled p)
                 (openSettingsShown p) (consentWindows p) (cameraRequests p) in
  if session (state (world p)) then (true, p)
  else if modelLoads env
       then (true, set_world (set_session true (world p)) p)
       else (false, p).

(** The [try] block of [startCamera] after the consent check: the error
    thrown, if any, and the popup at that point. *)
Definition startCamera_try (cfg : Config) (env : CameraEnv) (p : Popup)
  : option JsError * Popup :=
  if negb (mediaDevicesAvailable env)
  then (Some (newError "Camera API not supported in this browser"), p)
  else
    match requestCamera env p with
    | (Some error, p) => (Some error, p)
    | (None, p) =>
        let p :=
          mkPopup (world p) (running p) true (hasDetector p) (statusText p)
                  (startBtnDisabled p) (stopBtnDisabled p)
                  (openSettingsShown p) (consentWindows p)
                  (cameraRequests p) in
        match videoReady env with
        | Some error => (Some error, p)
        | None =>
            match loadModels env p with
            | (false, p) => (Some (newError "Model initialization failed"), p)
            | (true, p) =>
                let p :=
                  mkPopup (world p) true (stream p) (hasDetector p)
                          "Camera ready. Keep face in frame..." true false
                          (openSettingsShown p) (consentWindows p)
                          (cameraRequests p) in
                match videoResumes env with
                | Some error => (Some error, p)
                | None =>
                    let '(cycle, w) :=
                      analyzeFrame cfg (analysis env) (world p) in
                    (None,
                     set_statusText (cycleStatus cycle (statusText p))
                                    (set_world w p))
                end
            end
        end
    end.

(** [startCamera] (lines 1054-1243).  The timers that stop the camera
    after the analysis are not modelled. *)
Definition startCamera (cfg : Config) (env : CameraEnv) (p : Popup) : Popup :=
  if running p then p
  else
    let '(hasConsent, p) := checkConsent env p in
    if negb hasConsent
    then set_statusText "Please accept terms and conditions first" p
    else
      let p :=
        mkPopup (world p) (running p) (stream p) (hasDetector p)
                "Requesting camera access..." true true false
                (consentWindows p) (cameraRequests p) in
      match startCamera_try cfg env p with
      | (None, p) => p
      | (Some error, p) => cameraFailed error p
      end.

(** [stopCamera] (lines 1245-1277). *)
Definition stopCamera (p : Popup) : Popup :=
  if negb (stream p) && negb (running p)
  then set_statusText "Ready to start verification" p
  else
    mkPopup (world p) false false (hasDetector p)
            "Camera stopped. Ready to start." false true
            (openSettingsShown p) (consentWindows p) (cameraRequests p).

(** ** Concrete inputs for the rest *)

Definition canvas640 : Canvas.t := Canvas.mk 640 480.

(** A face of 100 x 100 pixels in the middle of the frame. *)
Definition faceMiddle : Face.t := Face.mk (200, 150) (300, 250) (Some 0.9).

(** A small, unsure detection. *)
Definition faceSmall : Face.t := Face.mk (10, 10) (40, 40) (Some 0.3).

Definition popup0 : Popup :=
  mkPopup world0 false false false "" false true false 0 0.

(** The browser grants everything and the classifier answers 0.46. *)
Definition cameraEnvOk : CameraEnv :=
  mkCameraEnv false true None None None true true None
              (envSink Delivered None).

(** The store after the consent page was accepted at time 500. *)
Definition popupConsented : Popup :=
  set_world (acceptConsent 500 world0) popup0.

(** * Properties *)

(** ** Clamping *)

(** Goals about [Rmax] and [Rmin] of given numbers: case analysis on the
    comparisons, then linear arithmetic. *)
Ltac minmax := unfold Rmax, Rmin; repeat destruct Rle_dec; lra.

Lemma Rmax_Rmin_bounds (lo hi x : R) :
  lo <= hi -> lo <= Rmax lo (Rmin hi x) <= hi.
Proof.
  intros Hle. minmax.
Qed.

Lemma Rmax_Rmin_id (lo hi x : R) :
  lo <= x <= hi -> Rmax lo (Rmin hi x) = x.
Proof.
  intros [Hlo Hhi]. minmax.
Qed.

Lemma clampedConfidence_bounds (l : list R) :
  0.55 <= clampedConfidence l <= 0.95.
Proof. unfold clampedConfidence. apply Rmax_Rmin_bounds. lra. Qed.

Lemma adjustConfidence_bounds (p c : R) :
  0.55 <= c <= 0.95 -> 0.55 <= adjustConfidence p c <= 0.95.
Proof.
  intros Hc. unfold adjustConfidence.
  destruct (decide _); [|exact Hc].
  minmax.
Qed.

(** ** The aggregation on one pass *)

Lemma sum_singleton (p : R) : Math.sum [p] = p.
Proof. unfold Math.sum. simpl. lra. Qed.

Lemma avgProb_singleton (p : R) : avgProb [p] = p.
Proof. unfold avgProb. rewrite sum_singleton. simpl. field. Qed.

Lemma prediction_MAJOR (p : R) : prediction p = MAJOR <-> p >= 0.52.
Proof.
  unfold prediction, MAJOR_THRESHOLD.
  destruct (decide _); split; intros H; try done; lra.
Qed.

Lemma prediction_MINOR (p : R) : prediction p = MINOR <-> p < 0.52.
Proof.
  unfold prediction, MAJOR_THRESHOLD.
  destruct (decide _); split; intros H; try done; lra.
Qed.

Lemma isMinor_true (p : R) : isMinor p = true <-> p < 0.52.
Proof.
  unfold isMinor. rewrite bool_decide_eq_true. apply prediction_MINOR.
Qed.

Lemma isMinor_false (p : R) : isMinor p = false <-> p >= 0.52.
Proof.
  unfold isMinor. rewrite bool_decide_eq_false, prediction_MINOR. lra.
Qed.

Lemma thresholdDistance_MAJOR (p : R) :
  p >= 0.52 -> thresholdDistance p = p - 0.52.
Proof.
  intros Hp. unfold thresholdDistance.
  rewrite (proj2 (isMinor_false p) Hp). unfold MAJOR_THRESHOLD.
  apply Rabs_right. lra.
Qed.

Lemma thresholdDistance_MINOR (p : R) :
  p < 0.52 -> thresholdDistance p = Rabs (p - 0.48).
Proof.
  intros Hp. unfold thresholdDistance.
  rewrite (proj2 (isMinor_true p) Hp). unfold MAJOR_THRESHOLD.
  f_equal. lra.
Qed.

(** The penalty applies exactly on the open interval (0.40, 0.60). *)
Lemma thresholdDistance_near (p : R) :
  thresholdDistance p < 0.08 <-> 0.4 < p < 0.6.
Proof.
  destruct (Rlt_dec p 0.52) as [Hlt|Hge].
  - rewrite thresholdDistance_MINOR by done.
    unfold Rabs. destruct Rcase_abs; lra.
  - rewrite thresholdDistance_MAJOR by lra. lra.
Qed.

Lemma singleton_confidence_extreme (p : R) :
  p = 0 \/ p = 1 -> Result.confidence (makeResult [p]) = 0.95.
Proof.
  intros Hp. unfold makeResult. cbn [Result.confidence].
  rewrite avgProb_singleton.
  assert (Hc : clampedConfidence [p] = 0.95).
  { unfold clampedConfidence, rawConfidence, distanceFromThreshold.
    rewrite avgProb_singleton. rewrite decide_True by done.
    assert (Habs : Rabs (p - 0.5) = 0.5).
    { destruct Hp as [-> | ->].
      - rewrite Rabs_left; lra.
      - rewrite Rabs_right; lra. }
    rewrite Habs. minmax. }
  rewrite Hc. unfold adjustConfidence.
  rewrite decide_False; [done|].
  destruct Hp as [-> | ->].
  - rewrite thresholdDistance_MINOR by lra. rewrite Rabs_left; lra.
  - rewrite thresholdDistance_MAJOR by lra. lra.
Qed.

(** C1.  For every list of per-pass probabilities, in particular every
    non-empty one, the confidence of the result object of [analyzeFrame]
    (after the clamp of line 967 and after the near-boundary penalty of
    lines 978-982) lies in the closed interval [0.55, 0.95]; a single
    pass with the extreme value 0 or 1 reports 0.95. *)
Theorem confidence_in_range :
  (forall allProbabilities : list R,
      0.55 <= Result.confidence (makeResult allProbabilities) <= 0.95)
  /\ Result.confidence (makeResult [0]) = 0.95
  /\ Result.confidence (makeResult [1]) = 0.95.
Proof.
  split; [|split].
  - intros l. unfold makeResult. cbn [Result.confidence].
    apply adjustConfidence_bounds, clampedConfidence_bounds.
  - apply singleton_confidence_extreme. by left.
  - apply singleton_confidence_extreme. by right.
Qed.

(** C2.  The verdict is MAJOR exactly when the aggregated probability is
    at least 0.52 and MINOR otherwise; when the probability is less than
    0.08 away from the boundary reference (0.52 for a MAJOR verdict,
    1 - 0.52 for a MINOR one) the confidence is multiplied by 0.85 and
    floored at 0.55, and otherwise it is left as it is; the penalty thus
    applies exactly for 0.40 < p < 0.60.  The result object carries exactly
    this verdict and this confidence. *)
Theorem verdict_threshold_and_penalty :
  forall (p c : R),
    (prediction p = MAJOR <-> p >= 0.52)
    /\ (prediction p = MINOR <-> p < 0.52)
    /\ (isMinor p = true <-> prediction p = MINOR)
    /\ (Rabs (p - match prediction p with
                   | MAJOR => 0.52
                   | MINOR => 1 - 0.52
                   end) < 0.08 ->
        adjustConfidence p c = Rmax 0.55 (c * 0.85))
    /\ (~ Rabs (p - match prediction p with
                     | MAJOR => 0.52
                     | MINOR => 1 - 0.52
                     end) < 0.08 ->
        adjustConfidence p c = c)
    /\ (0.4 < p < 0.6 -> adjustConfidence p c = Rmax 0.55 (c * 0.85))
    /\ (p <= 0.4 \/ p >= 0.6 -> adjustConfidence p c = c)
    /\ (forall l : list R,
           Result.prediction (makeResult l) = prediction (avgProb l)
           /\ Result.isMinor (makeResult l) = isMinor (avgProb l)
           /\ Result.confidence (makeResult l)
              = adjustConfidence (avgProb l) (clampedConfidence l)).
Proof.
  intros p c.
  assert (Hd : thresholdDistance p =
               Rabs (p - match prediction p with
                         | MAJOR => 0.52
                         | MINOR => 1 - 0.52
                         end)).
  { unfold thresholdDistance, isMinor, MAJOR_THRESHOLD.
    destruct (prediction p); reflexivity. }
  split; [apply prediction_MAJOR|].
  split; [apply prediction_MINOR|].
  split; [unfold isMinor; apply bool_decide_eq_true|].
  split; [|split; [|split; [|split]]].
  - intros H. unfold adjustConfidence. rewrite Hd. by rewrite decide_True.
  - intros H. unfold adjustConfidence. rewrite Hd. by rewrite decide_False.
  - intros H. unfold adjustConfidence.
    rewrite decide_True; [done|]. by apply thresholdDistance_near.
  - intros H. unfold adjustConfidence.
    rewrite decide_False; [done|]. rewrite thresholdDistance_near. lra.
  - intros l. unfold makeResult. cbn. done.
Qed.

(** ** Order independence of the aggregation *)

Section FoldPermutation.

Context {A B : Type} (f : A -> B -> A).
Hypothesis f_swap : forall a x y, f (f a x) y = f (f a y) x.

Lemma fold_left_Permutation (l l' : list B) :
  Permutation l l' -> forall a, fold_left f l a = fold_left f l' a.
Proof.
  induction 1 as [|x l l' _ IH|x y l|l1 l2 l3 _ IH1 _ IH2]; intros a; simpl.
  - reflexivity.
  - apply IH.
  - by rewrite f_swap.
  - by rewrite IH1.
Qed.

End FoldPermutation.

Lemma Rplus_swap (a x y : R) : a + x + y = a + y + x.
Proof. lra. Qed.

Lemma Rmin_swap (a x y : R) : Rmin (Rmin a x) y = Rmin (Rmin a y) x.
Proof. minmax. Qed.

Lemma Rmax_swap (a x y : R) : Rmax (Rmax a x) y = Rmax (Rmax a y) x.
Proof. minmax. Qed.

Lemma Rmin_idem (a : R) : Rmin a a = a.
Proof. minmax. Qed.

Lemma Rmax_idem (a : R) : Rmax a a = a.
Proof. minmax. Qed.

Lemma fold_left_Rplus (l : list R) (a : R) :
  fold_left Rplus l a = a + fold_right Rplus 0 l.
Proof.
  revert a. induction l as [|x l IH]; intros a; simpl.
  - lra.
  - rewrite IH. lra.
Qed.

Lemma avgProb_mean (l : list R) : avgProb l = mean l.
Proof.
  unfold avgProb, mean, Math.sum. rewrite fold_left_Rplus. f_equal. lra.
Qed.

Lemma sum_Permutation (l l' : list R) :
  Permutation l l' -> Math.sum l = Math.sum l'.
Proof.
  intros H. unfold Math.sum.
  apply (fold_left_Permutation Rplus Rplus_swap _ _ H).
Qed.

(** A fold of an idempotent, commutative operation does not depend on
    which element of the array it starts from. *)
Section FoldIdempotent.

Variable op : R -> R -> R.
Hypothesis op_swap : forall a x y, op (op a x) y = op (op a y) x.
Hypothesis op_comm : forall x y, op x y = op y x.
Hypothesis op_idem : forall a, op a a = a.
Hypothesis op_absorb : forall a x, op (op a x) x = op a x.

Lemma fold_left_absorb (l : list R) (a x : R) :
  In x l -> fold_left op l (op a x) = fold_left op l a.
Proof.
  intros Hin. apply in_split in Hin as (l1 & l2 & ->).
  assert (Hp : Permutation (l1 ++ x :: l2) (x :: l1 ++ l2))
    by (symmetry; apply Permutation_middle).
  rewrite !(fold_left_Permutation op op_swap _ _ Hp). simpl.
  by rewrite op_absorb.
Qed.

Lemma fold_left_any_head (x y : R) (l l' : list R) :
  Permutation (x :: l) (y :: l') -> fold_left op l x = fold_left op l' y.
Proof.
  intros Hp.
  assert (Hx : fold_left op l x = fold_left op (y :: l') x).
  { rewrite <- (fold_left_Permutation op op_swap _ _ Hp). simpl.
    by rewrite op_idem. }
  assert (Hy : fold_left op l' y = fold_left op (y :: l') y).
  { simpl. by rewrite op_idem. }
  rewrite Hx, Hy.
  rewrite <- (fold_left_absorb (y :: l') x y) by (left; reflexivity).
  rewrite <- (fold_left_absorb (y :: l') y x).
  - by rewrite (op_comm x y).
  - apply (Permutation_in _ Hp). left; reflexivity.
Qed.

End FoldIdempotent.

Lemma Rmin_absorb (a x : R) : Rmin (Rmin a x) x = Rmin a x.
Proof. minmax. Qed.

Lemma Rmax_absorb (a x : R) : Rmax (Rmax a x) x = Rmax a x.
Proof. minmax. Qed.

Lemma min_Permutation (l l' : list R) :
  Permutation l l' -> Math.min l = Math.min l'.
Proof.
  intros Hp. destruct l as [|x l], l' as [|y l']; simpl.
  - reflexivity.
  - by apply Permutation_nil in Hp.
  - symmetry in Hp. by apply Permutation_nil in Hp.
  - by apply (fold_left_any_head Rmin Rmin_swap Rmin_comm Rmin_idem
                                 Rmin_absorb).
Qed.

Lemma max_Permutation (l l' : list R) :
  Permutation l l' -> Math.max l = Math.max l'.
Proof.
  intros Hp. destruct l as [|x l], l' as [|y l']; simpl.
  - reflexivity.
  - by apply Permutation_nil in Hp.
  - symmetry in Hp. by apply Permutation_nil in Hp.
  - by apply (fold_left_any_head Rmax Rmax_swap Rmax_comm Rmax_idem
                                 Rmax_absorb).
Qed.

Section PermutedPasses.

Variables l l' : list R.
Hypothesis Hperm : Permutation l l'.

Lemma length_perm : length l = length l'.
Proof. by apply Permutation_length. Qed.

Lemma avgProb_perm : avgProb l = avgProb l'.
Proof.
  unfold avgProb. by rewrite (sum_Permutation _ _ Hperm), length_perm.
Qed.

Lemma range_perm : range l = range l'.
Proof.
  unfold range, maxProb, minProb.
  by rewrite (max_Permutation _ _ Hperm), (min_Permutation _ _ Hperm).
Qed.

Lemma stdDev_perm : stdDev l = stdDev l'.
Proof.
  unfold stdDev. rewrite avgProb_perm, length_perm. do 2 f_equal.
  apply fold_left_Permutation; [|exact Hperm].
  intros a x y. lra.
Qed.

Lemma agreement_perm : agreement l = agreement l'.
Proof.
  unfold agreement, majorVotes, minorVotes.
  rewrite length_perm.
  rewrite (Permutation_length
             (filter_Permutation (fun p => p >= 0.5) _ _ Hperm)).
  rewrite (Permutation_length
             (filter_Permutation (fun p => p < 0.5) _ _ Hperm)).
  reflexivity.
Qed.

Lemma rawConfidence_perm : rawConfidence l = rawConfidence l'.
Proof.
  unfold rawConfidence, distanceFromThreshold.
  by rewrite length_perm, avgProb_perm, stdDev_perm, range_perm,
    agreement_perm.
Qed.

Lemma makeResult_perm : makeResult l = makeResult l'.
Proof.
  unfold makeResult, clampedConfidence.
  by rewrite avgProb_perm, rawConfidence_perm, length_perm.
Qed.

End PermutedPasses.

(** *** The mean under rounding *)

(** The error of the floating-point mean of line 922, for a rounding of
    relative error [u] and absolute error [eta] on the numbers that are
    not negative. *)
Section RoundingError.

Variable rnd : R -> R.
Variables u eta : R.
Hypothesis Hu : 0 <= u <= 1.
Hypothesis Heta : 0 <= eta.
Hypothesis Hrnd :
  forall x : R,
    0 <= x -> 0 <= rnd x /\ (1 - u) * x - eta <= rnd x <= (1 + u) * x + eta.

Lemma pow_1u_ge_1 (n : nat) : 1 <= (1 + u) ^ n.
Proof. apply pow_R1_Rle. lra. Qed.

Lemma pow_1u_le_1 (n : nat) : 0 <= (1 - u) ^ n <= 1.
Proof.
  split; [apply pow_le; lra|].
  apply Rle_trans with (1 ^ n); [apply pow_incr; lra|rewrite pow1; lra].
Qed.

Lemma rounded_fold_bounds (l : list R) (acc : R) :
  0 <= acc ->
  Forall (fun p => 0 <= p) l ->
  let s := fold_left (fun a b => rnd (a + b)) l acc in
  0 <= s
  /\ (1 - u) ^ length l * (acc + fold_right Rplus 0 l) - INR (length l) * eta
     <= s
     <= (1 + u) ^ length l
        * (acc + fold_right Rplus 0 l + INR (length l) * eta).
Proof.
  intros Hacc Hall. revert acc Hacc.
  induction Hall as [|x l Hx Hall IH]; intros acc Hacc.
  - cbn. lra.
  - cbn [fold_left]. change (length (x :: l)) with (S (length l)).
    rewrite S_INR. cbn [fold_right].
    destruct (Hrnd (acc + x) ltac:(lra)) as (Hr0 & Hrlo & Hrhi).
    destruct (IH (rnd (acc + x)) Hr0) as (Hs0 & Hlo & Hhi).
    set (s := fold_left _ l _) in *.
    set (S := fold_right Rplus 0 l) in *.
    assert (HS : 0 <= S).
    { unfold S. clear -Hall. induction Hall; cbn; lra. }
    pose proof (pow_1u_ge_1 (length l)) as Hp1.
    pose proof (pow_1u_le_1 (length l)) as Hq1.
    pose proof (pos_INR (length l)) as Hn.
    set (P := (1 + u) ^ length l) in *. set (Q := (1 - u) ^ length l) in *.
    cbn [pow]. fold P Q.
    split; [exact Hs0|]. split.
    + apply Rle_trans with (Q * (rnd (acc + x) + S) - INR (length l) * eta);
        [|exact Hlo].
      assert (H1 : Q * ((1 - u) * (acc + x) - eta + S)
                   <= Q * (rnd (acc + x) + S))
        by (apply Rmult_le_compat_l; lra).
      assert (H2 : 0 <= Q * S * u)
        by (repeat apply Rmult_le_pos; lra).
      assert (H3 : Q * eta <= 1 * eta)
        by (apply Rmult_le_compat_r; lra).
      lra.
    + apply Rle_trans
        with (P * (rnd (acc + x) + S + INR (length l) * eta)); [exact Hhi|].
      assert (H1 : P * (rnd (acc + x) + S + INR (length l) * eta)
                   <= P * ((1 + u) * (acc + x) + eta + S
                           + INR (length l) * eta))
        by (apply Rmult_le_compat_l; lra).
      assert (H2 : 0 <= P * u * (S + (INR (length l) + 1) * eta)).
      { repeat apply Rmult_le_pos; try lra.
        apply Rplus_le_le_0_compat; [lra|].
        apply Rmult_le_pos; lra. }
      lra.
Qed.

Lemma rounded_avgProb_bounds (l : list R) :
  l <> [] ->
  Forall (fun p => 0 <= p <= 1) l ->
  (1 - u) ^ (length l + 1) * mean l - 2 * eta
  <= Rounded.avgProb rnd l
  <= (1 + u) ^ (length l + 1) * (mean l + eta) + eta.
Proof.
  intros Hne Hall.
  assert (Hpos : Forall (fun p => 0 <= p) l).
  { eapply Forall_impl; [exact Hall|]. cbn. intros p Hp. lra. }
  destruct (rounded_fold_bounds l 0 ltac:(lra) Hpos) as (Hs0 & Hlo & Hhi).
  cbv zeta in Hs0, Hlo, Hhi. fold (Rounded.sum rnd l) in Hs0, Hlo, Hhi.
  unfold Rounded.avgProb, mean.
  set (s := Rounded.sum rnd l) in *.
  set (S := fold_right Rplus 0 l) in *.
  assert (HS : 0 <= S).
  { unfold S. clear -Hpos. induction Hpos; cbn; lra. }
  assert (Hn : 1 <= INR (length l)).
  { destruct l; [done|].
    change (length (r :: l)) with (Datatypes.S (length l)).
    rewrite S_INR. pose proof (pos_INR (length l)). lra. }
  set (n := INR (length l)) in *.
  assert (Hinv : 0 < / n <= 1).
  { split; [apply Rinv_0_lt_compat; lra|].
    rewrite <- Rinv_1. apply Rinv_le_contravar; lra. }
  assert (Hq : 0 <= s / n) by (unfold Rdiv; nra).
  destruct (Hrnd (s / n) Hq) as (_ & Hrlo & Hrhi).
  pose proof (pow_1u_ge_1 (length l)) as Hp1.
  pose proof (pow_1u_le_1 (length l)) as Hq1.
  rewrite !pow_add, !pow_1.
  set (P := (1 + u) ^ length l) in *. set (Q := (1 - u) ^ length l) in *.
  assert (Hsn_lo : Q * (S / n) - eta <= s / n).
  { unfold Rdiv. apply Rle_trans with ((Q * (0 + S) - n * eta) * / n).
    - assert (n * eta * / n = eta) by (field; lra). nra.
    - apply Rmult_le_compat_r; lra. }
  assert (Hsn_hi : s / n <= P * (S / n + eta)).
  { unfold Rdiv. apply Rle_trans with ((P * (0 + S + n * eta)) * / n).
    - apply Rmult_le_compat_r; lra.
    - assert (n * eta * / n = eta) by (field; lra). nra. }
  assert (HSn : 0 <= S / n) by (unfold Rdiv; nra).
  split.
  - apply Rle_trans with ((1 - u) * (s / n) - eta); [|exact Hrlo].
    apply Rle_trans with ((1 - u) * (Q * (S / n) - eta) - eta); nra.
  - apply Rle_trans with ((1 + u) * (s / n) + eta); [exact Hrhi|].
    apply Rle_trans with ((1 + u) * (P * (S / n + eta)) + eta); nra.
Qed.

End RoundingError.

(** *** The mean in doubles *)

Section Doubles.

Import PrimFloat.


End Doubles.


(** ** The output interpreter *)




Lemma interpret_single_probability (x : R) :
  0 <= x <= 1 -> interpretOutputToProbability (Some [x]) = Some x.
Proof.
  intros Hx. unfold interpretOutputToProbability.
  rewrite decide_True by lra. f_equal. apply Rmax_Rmin_id. lra.
Qed.



Lemma interpret_bounds (outputData : option (list R)) (p : R) :
  interpretOutputToProbability outputData = Some p -> 0 <= p <= 1.
Proof.
  unfold interpretOutputToProbability.
  destruct outputData as [[|x [|y [|z rest]]]|]; try done;
    intros [= <-]; apply Rmax_Rmin_bounds; lra.
Qed.

(** *** The interpreter on outputs with NaN and infinities *)

Lemma Number_max_finite (a b : R) :
  Number.max (Number.Finite a) (Number.Finite b) = Number.Finite (Rmax a b).
Proof.
  unfold Number.max. cbn. case_bool_decide; f_equal; minmax.
Qed.

Lemma Number_min_finite (a b : R) :
  Number.min (Number.Finite a) (Number.Finite b) = Number.Finite (Rmin a b).
Proof.
  unfold Number.min, Number.le. cbn. case_bool_decide; f_equal; minmax.
Qed.


(** The clamp of line 598, case by case. *)
Lemma Number_clamp (p : Number.t) :
  Number.max (Number.Finite 0) (Number.min (Number.Finite 1) p)
  = match p with
    | Number.Finite q => Number.Finite (Rmax 0 (Rmin 1 q))
    | Number.NaN => Number.NaN
    | Number.PosInfinity => Number.Finite 1
    | Number.NegInfinity => Number.Finite 0
    end.
Proof.
  destruct p.
  - by rewrite Number_min_finite, Number_max_finite.
  - done.
  - cbn. rewrite bool_decide_eq_false_2 by lra. done.
  - cbn. done.
Qed.








(** ** The policy controller *)

(** A call with the verdict already recorded does nothing at all. *)
Lemma updateSafeSearch_same (env : Env) (isMinor : bool) (w : World) :
  lastMinorState (state w) = Some isMinor ->
  run (updateSafeSearch env isMinor) w = (Ok (), w).
Proof.
  intros H. unfold updateSafeSearch. cbn. by rewrite decide_True.
Qed.

(** What a call leaves behind, whatever the sink does: it never throws,
    the verdict is recorded, at most the one message is sent, and neither
    the result display nor the verification window is touched. *)
Lemma updateSafeSearch_effect (env : Env) (isMinor : bool) (w : World) :
  exists w',
    run (updateSafeSearch env isMinor) w = (Ok (), w')
    /\ lastMinorState (state w') = Some isMinor
    /\ session (state w') = session (state w)
    /\ isAnalyzing (state w') = isAnalyzing (state w)
    /\ resultText (elements w') = resultText (elements w)
    /\ resultCard (elements w') = resultCard (elements w)
    /\ sendMessageCalls (chrome w')
       = sendMessageCalls (chrome w)
           ++ (if decide (lastMinorState (state w) = Some isMinor)
               then [] else [SET_SAFE isMinor])
    /\ local (chrome w') !! "verificationAllowedUntil"
       = local (chrome w) !! "verificationAllowedUntil".
Proof.
  destruct (decide (lastMinorState (state w) = Some isMinor)) as [Heq|Hne].
  - exists w. rewrite updateSafeSearch_same by done.
    rewrite app_nil_r. done.
  - unfold updateSafeSearch.
    destruct env as [inf [| |] [message|] nw we], isMinor;
      cbn; rewrite decide_False by done; cbn;
      try destruct (bool_decide (lockedMessage message <> ""));
      cbn; eexists; (split; [reflexivity|]); cbn;
      rewrite ?lookup_insert_ne by done; done.
Qed.

Lemma updateSafeSearch_failed_sink (env : Env) (isMinor : bool) (w : World) :
  lastMinorState (state w) <> Some isMinor ->
  sinkFails env ->
  let w' := (run (updateSafeSearch env isMinor) w).2 in
  lastMinorState (state w') = Some isMinor
  /\ sendMessageCalls (chrome w')
     = sendMessageCalls (chrome w) ++ [SET_SAFE isMinor]
  /\ dynamicRules (chrome w') = dynamicRules (chrome w)
  /\ safesearchBadge (elements w') = safesearchBadge (elements w).
Proof.
  intros Hne Hfail. unfold updateSafeSearch.
  destruct env as [inf so ue nw we]. unfold sinkFails in Hfail. cbn in Hfail.
  destruct so, ue as [message|], isMinor;
    try (exfalso; destruct Hfail; congruence);
    cbn; rewrite decide_False by done; cbn;
    try destruct (bool_decide (lockedMessage message <> ""));
    cbn; done.
Qed.

(** C8.  Two invocations of the controller in a row with the same verdict:
    the second one changes nothing and sends nothing, so that the two
    together send the enable/disable message at most once. *)
Theorem updateSafeSearch_twice :
  forall (env1 env2 : Env) (isMinor : bool) (w : World),
    let w1 := (run (updateSafeSearch env1 isMinor) w).2 in
    let w2 := (run (updateSafeSearch env2 isMinor) w1).2 in
    run (updateSafeSearch env2 isMinor) w1 = (Ok (), w1)
    /\ sendMessageCalls (chrome w2) = sendMessageCalls (chrome w1)
    /\ sendMessageCalls (chrome w2)
       = sendMessageCalls (chrome w)
           ++ (if decide (lastMinorState (state w) = Some isMinor)
               then [] else [SET_SAFE isMinor])
    /\ (length (sendMessageCalls (chrome w2))
        <= length (sendMessageCalls (chrome w)) + 1)%nat.
Proof.
  intros env1 env2 isMinor w w1 w2.
  destruct (updateSafeSearch_effect env1 isMinor w)
    as (w' & Hrun & Hlast & _ & _ & _ & _ & Hsent & _).
  assert (Hw1 : w1 = w') by (unfold w1; by rewrite Hrun).
  assert (Hsame : run (updateSafeSearch env2 isMinor) w1 = (Ok (), w1)).
  { apply updateSafeSearch_same. by rewrite Hw1. }
  assert (Hw2 : w2 = w1) by (unfold w2; by rewrite Hsame).
  split; [exact Hsame|]. split; [by rewrite Hw2|].
  split; [by rewrite Hw2, Hw1|].
  rewrite Hw2, Hw1, Hsent, length_app.
  destruct (decide _); simpl; lia.
Qed.

(** ** The analysis cycle *)

Lemma run_bind {A B : Type} (m : M A) (f : A -> M B) (w : World) :
  run (m ≫= f) w
  = match run m w with
    | (Ok a, w') => run (f a) w'
    | (Err e, w') => (Err e, w')
    end.
Proof. reflexivity. Qed.

#[local] Arguments fallback : simpl never.
#[local] Arguments updateSafeSearch : simpl never.
#[local] Arguments passes : simpl never.
#[local] Arguments makeResult : simpl never.

Lemma validProbability_interpret (outputData : option (list R)) :
  validProbability (Returns outputData)
  = interpretOutputToProbability outputData.
Proof.
  unfold validProbability.
  destruct (interpretOutputToProbability outputData) as [p|] eqn:Hp; [|done].
  apply interpret_bounds in Hp. rewrite decide_True; [done|lra].
Qed.

Lemma pass_valid (env : Env) (padIdx : nat) (pad : Z) (acc : list R) :
  pass env padIdx pad acc
  = acc ++ option_list (validProbability (infer env padIdx pad)).
Proof.
  unfold pass, validProbability.
  destruct (infer env padIdx pad) as [|outputData]; simpl.
  - by rewrite app_nil_r.
  - destruct (interpretOutputToProbability outputData) as [p|]; simpl.
    + destruct (decide _); simpl; [done|by rewrite app_nil_r].
    + by rewrite app_nil_r.
Qed.

(** The loop only ever appends to what it has. *)
Lemma passes_app (env : Env) (paddingValues : list Z) (padIdx : nat)
  (acc : list R) :
  passes env padIdx paddingValues acc
  = acc ++ passes env padIdx paddingValues [].
Proof.
  revert padIdx acc.
  induction paddingValues as [|pad rest IH]; intros padIdx acc.
  - cbn [passes]. by rewrite app_nil_r.
  - change (passes env (S padIdx) rest (pass env padIdx pad acc)
            = acc ++ passes env (S padIdx) rest (pass env padIdx pad [])).
    rewrite IH. rewrite (IH _ (pass env padIdx pad [])).
    rewrite (pass_valid env padIdx pad acc), (pass_valid env padIdx pad []).
    simpl. by rewrite app_assoc.
Qed.

Lemma passes_cons (env : Env) (pad : Z) (rest : list Z) (padIdx : nat) :
  passes env padIdx (pad :: rest) []
  = option_list (validProbability (infer env padIdx pad))
      ++ passes env (S padIdx) rest [].
Proof.
  change (passes env (S padIdx) rest (pass env padIdx pad [])
          = option_list (validProbability (infer env padIdx pad))
              ++ passes env (S padIdx) rest []).
  rewrite passes_app, pass_valid. done.
Qed.

Lemma fallback_run (cfg : Config) (env : Env) (w : World) :
  run (fallback cfg env) w
  = match validProbability
            (infer env (length (TTA_PADDINGS cfg)) (FACE_PADDING cfg)) with
    | Some prob => (Ok [prob], w)
    | None => (Err analysisFailedMessage, w)
    end.
Proof.
  unfold fallback, validProbability.
  destruct (infer env _ _) as [|fallbackData]; cbn; [done|].
  destruct (interpretOutputToProbability fallbackData) as [p|]; cbn; [|done].
  destruct (decide _); cbn; done.
Qed.

Lemma analyzeFrame_try_run (cfg : Config) (env : Env) (w : World) :
  run (analyzeFrame_try cfg env) w
  = if session (state w) then
      match finalProbabilities cfg env with
      | [] => (Err analysisFailedMessage, resetUI w)
      | _ :: _ =>
          run (conclude env (makeResult (finalProbabilities cfg env)))
              (resetUI w)
      end
    else (Err "Model not loaded", resetUI w).
Proof.
  unfold analyzeFrame_try, finalProbabilities. cbn.
  destruct (session (state w)); cbn; [|done].
  destruct (decide (length (passes env 0 (TTA_PADDINGS cfg) []) = 0%nat))
    as [Hlen|Hlen].
  - rewrite run_bind, fallback_run.
    destruct (validProbability _) as [p|]; cbn; done.
  - cbn. destruct (passes env 0 (TTA_PADDINGS cfg) []) as [|p ps]; [done|].
    cbn. done.
Qed.

Lemma conclude_run (env : Env) (result : Result.t) (w : World) :
  exists w2,
    run (updateSafeSearch env (Result.isMinor result)) (showResult result w)
    = (Ok (), w2)
    /\ run (conclude env result) w = (Ok result, windowWritten env w2).
Proof.
  destruct (updateSafeSearch_effect env (Result.isMinor result)
                                    (showResult result w))
    as (w2 & Hrun & _).
  exists w2. split; [exact Hrun|].
  unfold conclude. rewrite run_bind. cbn [run modify].
  rewrite run_bind, Hrun.
  unfold windowWritten, setVerificationWindow.
  destruct (windowWriteError env); done.
Qed.

(** The cycle, case by case. *)
Lemma analyzeFrame_run (cfg : Config) (env : Env) (w : World) :
  analyzeFrame cfg env w
  = if isAnalyzing (state w) then (Skipped, w)
    else if session (state w) then
      match finalProbabilities cfg env with
      | [] =>
          (Failed analysisFailedMessage,
           set_isAnalyzing false (showError (resetUI (set_isAnalyzing true w))))
      | _ :: _ =>
          let result := makeResult (finalProbabilities cfg env) in
          (Completed result,
           set_isAnalyzing false
             (windowWritten env
                (run (updateSafeSearch env (Result.isMinor result))
                     (showResult result
                        (resetUI (set_isAnalyzing true w)))).2))
      end
    else
      (Failed "Model not loaded",
       set_isAnalyzing false (showError (resetUI (set_isAnalyzing true w)))).
Proof.
  unfold analyzeFrame.
  destruct (isAnalyzing (state w)); [done|].
  rewrite analyzeFrame_try_run. cbn [set_isAnalyzing state session].
  destruct (session (state w)); [|done].
  destruct (finalProbabilities cfg env) as [|p ps] eqn:Hfin; [done|].
  destruct (conclude_run env (makeResult (p :: ps))
                         (resetUI (set_isAnalyzing true w)))
    as (w2 & Hrun & Hconcl).
  cbn [set_isAnalyzing state session] in *.
  rewrite Hconcl. cbv zeta. rewrite Hrun. done.
Qed.

(** ** Bounds on the exponential, for the scenarios *)






(** ** Completed and failed cycles *)

Lemma analyzeFrame_completes (cfg : Config) (env : Env) (w : World) :
  isAnalyzing (state w) = false ->
  session (state w) = true ->
  finalProbabilities cfg env <> [] ->
  let result := makeResult (finalProbabilities cfg env) in
  analyzeFrame cfg env w
  = (Completed result,
     set_isAnalyzing false
       (windowWritten env
          (run (updateSafeSearch env (Result.isMinor result))
               (beforePolicy result w)).2)).
Proof.
  intros Ha Hs Hne. rewrite analyzeFrame_run, Ha, Hs.
  destruct (finalProbabilities cfg env); done.
Qed.

Lemma analyzeFrame_Completed_inv (cfg : Config) (env : Env) (w w' : World)
  (result : Result.t) :
  analyzeFrame cfg env w = (Completed result, w') ->
  isAnalyzing (state w) = false
  /\ session (state w) = true
  /\ finalProbabilities cfg env <> []
  /\ result = makeResult (finalProbabilities cfg env)
  /\ w' = set_isAnalyzing false
            (windowWritten env
               (run (updateSafeSearch env (Result.isMinor result))
                    (beforePolicy result w)).2).
Proof.
  rewrite analyzeFrame_run.
  destruct (isAnalyzing (state w)); [done|].
  destruct (session (state w)); [|done].
  destruct (finalProbabilities cfg env) as [|p ps]; [done|].
  cbv zeta. intros [= <- <-]. done.
Qed.

Lemma analyzeFrame_Failed_inv (cfg : Config) (env : Env) (w w' : World)
  (errorMsg : string) :
  analyzeFrame cfg env w = (Failed errorMsg, w') ->
  isAnalyzing (state w) = false
  /\ (session (state w) = true -> finalProbabilities cfg env = [])
  /\ w' = set_isAnalyzing false (showError (resetUI (set_isAnalyzing true w))).
Proof.
  rewrite analyzeFrame_run.
  destruct (isAnalyzing (state w)); [done|].
  destruct (session (state w)).
  - destruct (finalProbabilities cfg env) as [|p ps]; [|done].
    intros [= <- <-]. done.
  - intros [= <- <-]. done.
Qed.

Lemma passes_all_throw (env : Env) (paddingValues : list Z) (padIdx : nat) :
  (forall i pad, infer env i pad = Throws) ->
  passes env padIdx paddingValues [] = [].
Proof.
  intros Hthrow. revert padIdx.
  induction paddingValues as [|pad rest IH]; intros padIdx; [done|].
  rewrite passes_cons, Hthrow, IH. done.
Qed.

Lemma finalProbabilities_nil (cfg : Config) (env : Env) :
  finalProbabilities cfg env = [] <->
  passes env 0 (TTA_PADDINGS cfg) [] = []
  /\ validProbability
       (infer env (length (TTA_PADDINGS cfg)) (FACE_PADDING cfg)) = None.
Proof.
  unfold finalProbabilities. cbv zeta.
  destruct (passes env 0 (TTA_PADDINGS cfg) []) as [|p ps]; cbn.
  - destruct (validProbability _); cbn; split; try done. by intros [_ ?].
  - split; [done|]. by intros [? _].
Qed.

(** C6.  If the classifier capability fails on every pass and on the
    fallback pass, a cycle that was started ends in its [catch] block: no
    result object, hence no verdict, is produced; nothing is sent to the
    policy sink; the persistent store (the keys [isMinor] and
    [verificationAllowedUntil] with it), the redirect rules and the
    recorded verdict [lastMinorState] are what they were. *)
Theorem inference_unavailable (cfg : Config) (env : Env) (w : World) :
  isAnalyzing (state w) = false ->
  (forall i pad, infer env i pad = Throws) ->
  exists errorMsg w',
    analyzeFrame cfg env w = (Failed errorMsg, w')
    /\ chrome w' = chrome w
    /\ local (chrome w') !! "isMinor" = local (chrome w) !! "isMinor"
    /\ local (chrome w') !! "verificationAllowedUntil"
       = local (chrome w) !! "verificationAllowedUntil"
    /\ lastMinorState (state w') = lastMinorState (state w)
    /\ resultText (elements w') = "Error"
    /\ isAnalyzing (state w') = false.
Proof.
  intros Ha Hthrow.
  assert (Hfin : finalProbabilities cfg env = []).
  { apply finalProbabilities_nil. rewrite passes_all_throw by done.
    by rewrite Hthrow. }
  rewrite analyzeFrame_run, Ha, Hfin.
  destruct (session (state w)); do 2 eexists; (split; [reflexivity|]); done.
Qed.

(** C7, amended.  Whenever a cycle completes with a result object,
    whatever its verdict and whatever the policy sink did, it has written
    the time read at line 1018 plus 3600 seconds (in milliseconds) under
    [verificationAllowedUntil]; when the store rejects that write, the
    rejection is swallowed (lines 1017-1020), the cycle completes all the
    same, and the key holds what it held before the cycle. *)
Theorem verification_window_set (cfg : Config) (env : Env) (w w' : World)
  (result : Result.t) :
  analyzeFrame cfg env w = (Completed result, w') ->
  local (chrome w') !! "verificationAllowedUntil"
  = match windowWriteError env with
    | None => Some (VNum (now env + 3600 * 1000))
    | Some _ => local (chrome w) !! "verificationAllowedUntil"
    end.
Proof.
  intros H. apply analyzeFrame_Completed_inv in H as (_ & _ & _ & _ & ->).
  destruct (updateSafeSearch_effect env (Result.isMinor result)
              (beforePolicy result w))
    as (w2 & Hupd & _ & _ & _ & _ & _ & _ & Hwin).
  rewrite Hupd. unfold windowWritten.
  destruct (windowWriteError env); cbn.
  - exact Hwin.
  - rewrite lookup_insert_eq. done.
Qed.

Lemma passes_validProbabilities (env : Env) (paddingValues : list Z)
  (padIdx : nat) :
  passes env padIdx paddingValues []
  = validProbabilities env padIdx paddingValues.
Proof.
  revert padIdx.
  induction paddingValues as [|pad rest IH]; intros padIdx; [done|].
  rewrite passes_cons, IH. done.
Qed.

Lemma interpret_unsupported (outputData : list R) :
  length outputData <> 1%nat -> length outputData <> 2%nat ->
  interpretOutputToProbability (Some outputData) = None.
Proof.
  intros H1 H2. destruct outputData as [|x [|y [|z rest]]]; done.
Qed.

(** C9.  A raw output whose length is neither 1 nor 2 is interpreted as
    [null], and the pass that produced it leaves the collected
    probabilities as a throwing pass does: the loop goes on and collects
    exactly the valid probabilities of all passes.  A started cycle with a
    loaded model completes as soon as one probability was collected by the
    loop or by the fallback pass; it fails only if the loop collected
    nothing and the fallback pass gave no valid probability either. *)
Theorem unsupported_shape_discards_pass (cfg : Config) (env : Env)
  (w : World) :
  isAnalyzing (state w) = false ->
  session (state w) = true ->
  (forall outputData : list R,
      length outputData <> 1%nat -> length outputData <> 2%nat ->
      interpretOutputToProbability (Some outputData) = None
      /\ validProbability (Returns (Some outputData))
         = validProbability Throws
      /\ forall padIdx pad allProbabilities,
           infer env padIdx pad = Returns (Some outputData) ->
           pass env padIdx pad allProbabilities = allProbabilities)
  /\ passes env 0 (TTA_PADDINGS cfg) []
     = validProbabilities env 0 (TTA_PADDINGS cfg)
  /\ (finalProbabilities cfg env <> [] ->
      exists w',
        analyzeFrame cfg env w
        = (Completed (makeResult (finalProbabilities cfg env)), w'))
  /\ (forall errorMsg w',
        analyzeFrame cfg env w = (Failed errorMsg, w') ->
        passes env 0 (TTA_PADDINGS cfg) [] = []
        /\ validProbability
             (infer env (length (TTA_PADDINGS cfg)) (FACE_PADDING cfg))
           = None).
Proof.
  intros Ha Hs. split; [|split; [|split]].
  - intros outputData H1 H2.
    pose proof (interpret_unsupported outputData H1 H2) as Hnone.
    split; [exact Hnone|]. split.
    + cbn [validProbability]. by rewrite Hnone.
    + intros padIdx pad acc Hinf. unfold pass. by rewrite Hinf, Hnone.
  - apply passes_validProbabilities.
  - intros Hne. eexists. by apply analyzeFrame_completes.
  - intros errorMsg w' Hfail.
    apply analyzeFrame_Failed_inv in Hfail as (_ & Hfin & _).
    by apply finalProbabilities_nil, Hfin.
Qed.

(** ** Scenario A: the raw output [0.2, 0.8] *)

Lemma finalProbabilities_single (cfg : Config) (env : Env) (pad : Z)
  (p : R) :
  TTA_PADDINGS cfg = [pad] ->
  validProbability (infer env 0 pad) = Some p ->
  finalProbabilities cfg env = [p].
Proof.
  intros Hpads Hvalid. unfold finalProbabilities.
  rewrite Hpads, passes_cons, Hvalid. done.
Qed.


Lemma makeResult_singleton_MINOR (p : R) :
  p < 0.52 ->
  Result.probability (makeResult [p]) = p
  /\ Result.prediction (makeResult [p]) = MINOR
  /\ Result.isMinor (makeResult [p]) = true.
Proof.
  intros Hp. unfold makeResult. cbn. rewrite avgProb_singleton.
  split; [done|]. split.
  - by apply prediction_MINOR.
  - by apply isMinor_true.
Qed.

(** The sink call succeeded: the verdict is persisted by the background
    script and the rules are switched. *)
Lemma updateSafeSearch_delivered (env : Env) (isMinor : bool) (w : World) :
  lastMinorState (state w) <> Some isMinor ->
  sendOutcome env = Delivered ->
  updateDynamicRulesError env = None ->
  let w' := (run (updateSafeSearch env isMinor) w).2 in
  local (chrome w') !! "isMinor" = Some (VBool isMinor)
  /\ dynamicRules (chrome w')
     = (if isMinor
        then dynamicRules (chrome w) ∪ {[RULE_ID_GOOGLE; RULE_ID_BING]}
        else dynamicRules (chrome w) ∖ {[RULE_ID_GOOGLE; RULE_ID_BING]})
  /\ safesearchBadge (elements w') = Some isMinor.
Proof.
  intros Hne Hd Hr. unfold updateSafeSearch.
  destruct env as [inf so ue nw we]. cbn in Hd, Hr. subst so ue.
  destruct isMinor; cbn; rewrite decide_False by done; cbn;
    rewrite lookup_insert_eq; (split; [done|]); (split; [|done]).
  - by rewrite difference_empty_L, union_empty_r_L.
  - by rewrite union_empty_r_L, union_empty_r_L.
Qed.




(** ** The theorems at concrete inputs *)



Lemma inference_unavailable_witness :
  exists errorMsg w',
    analyzeFrame CONFIG envUnavailable world0 = (Failed errorMsg, w')
    /\ chrome w' = chrome world0
    /\ lastMinorState (state w') = None.
Proof.
  destruct (inference_unavailable CONFIG envUnavailable world0 eq_refl
              (fun _ _ => eq_refl))
    as (errorMsg & w' & Hrun & Hchrome & _ & _ & Hlast & _).
  exists errorMsg, w'. repeat split; assumption.
Defined.

Lemma scenario_B_probabilities (so : SendOutcome) (ue : option string) :
  finalProbabilities CONFIG (envSink so ue) = [0.46].
Proof.
  apply (finalProbabilities_single CONFIG (envSink so ue) 25); [done|].
  cbn [infer envSink]. rewrite validProbability_interpret.
  apply interpret_single_probability. lra.
Qed.

Lemma scenario_B_completes (so : SendOutcome) (ue : option string) :
  exists w',
    analyzeFrame CONFIG (envSink so ue) world0
    = (Completed (makeResult [0.46]), w').
Proof.
  pose proof (analyzeFrame_completes CONFIG (envSink so ue) world0
                eq_refl eq_refl) as Hrun.
  rewrite scenario_B_probabilities in Hrun.
  eexists. apply Hrun. done.
Qed.

(** A MINOR verdict whose sink call throws: the window is set all the same. *)
Lemma verification_window_set_witness :
  exists w',
    analyzeFrame CONFIG (envSink SendThrows None) world0
    = (Completed (makeResult [0.46]), w')
    /\ Result.prediction (makeResult [0.46]) = MINOR
    /\ local (chrome w') !! "verificationAllowedUntil"
       = Some (VNum 3601000).
Proof.
  destruct (scenario_B_completes SendThrows None) as (w' & Hrun).
  exists w'. split; [exact Hrun|]. split.
  - apply makeResult_singleton_MINOR. lra.
  - apply (verification_window_set CONFIG (envSink SendThrows None) world0 w'
             (makeResult [0.46]) Hrun).
Defined.

(** C7, as the spec has it, fails: when the store rejects the write of
    line 1019, the cycle completes with its verdict, the sink has been
    called, and no window is stored. *)
Lemma completed_cycle_without_window :
  exists w',
    analyzeFrame CONFIG envWindowRejected world0
    = (Completed (makeResult [0.46]), w')
    /\ sendMessageCalls (chrome w') = [SET_SAFE true]
    /\ local (chrome w') !! "verificationAllowedUntil" = None
    /\ local (chrome w') !! "verificationAllowedUntil"
       <> Some (VNum (now envWindowRejected + 3600 * 1000)).
Proof.
  assert (Hfin : finalProbabilities CONFIG envWindowRejected = [0.46]).
  { apply (finalProbabilities_single CONFIG envWindowRejected 25); [done|].
    cbn [infer envWindowRejected]. rewrite validProbability_interpret.
    apply interpret_single_probability. lra. }
  pose proof (analyzeFrame_completes CONFIG envWindowRejected world0
                eq_refl eq_refl) as Hrun.
  rewrite Hfin in Hrun. specialize (Hrun ltac:(done)). cbv zeta in Hrun.
  destruct (makeResult_singleton_MINOR 0.46 ltac:(lra)) as (_ & _ & Hminor).
  destruct (updateSafeSearch_effect envWindowRejected
              (Result.isMinor (makeResult [0.46]))
              (beforePolicy (makeResult [0.46]) world0))
    as (w2 & Hupd & _ & _ & _ & _ & _ & Hsent & Hwin).
  rewrite Hupd in Hrun. cbn [snd] in Hrun.
  eexists. split; [exact Hrun|].
  rewrite Hminor in Hsent. cbn in Hsent, Hwin. cbn.
  split; [exact Hsent|]. rewrite Hwin. done.
Qed.

Lemma envMixed_probabilities : finalProbabilities CONFIG3 envMixed = [0.46].
Proof.
  unfold finalProbabilities. cbn [TTA_PADDINGS CONFIG3].
  rewrite !passes_cons. cbn [infer envMixed passes].
  rewrite !validProbability_interpret.
  rewrite interpret_unsupported by (cbn; lia).
  rewrite interpret_single_probability by lra.
  done.
Qed.

Lemma unsupported_shape_discards_pass_witness :
  interpretOutputToProbability (Some [0.1; 0.2; 0.3]) = None
  /\ exists w',
       analyzeFrame CONFIG3 envMixed world0
       = (Completed (makeResult [0.46]), w').
Proof.
  destruct (unsupported_shape_discards_pass CONFIG3 envMixed world0
              eq_refl eq_refl) as (Hshape & _ & Hcompl & _).
  split.
  - apply (Hshape [0.1; 0.2; 0.3]); cbn; lia.
  - rewrite envMixed_probabilities in Hcompl. apply Hcompl. discriminate.
Defined.

(** ** Two cycles in a row *)

(** The write of the window touches the store only, and there one key. *)
Lemma windowWritten_frame (env : Env) (w : World) :
  state (windowWritten env w) = state w
  /\ elements (windowWritten env w) = elements w
  /\ dynamicRules (chrome (windowWritten env w)) = dynamicRules (chrome w)
  /\ sendMessageCalls (chrome (windowWritten env w))
     = sendMessageCalls (chrome w)
  /\ forall key : string,
       key <> "verificationAllowedUntil" ->
       local (chrome (windowWritten env w)) !! key = local (chrome w) !! key.
Proof.
  unfold windowWritten. destruct (windowWriteError env); [done|].
  cbn. split_and!; try done.
  intros key Hkey. by rewrite lookup_insert_ne.
Qed.

Lemma beforePolicy_state (result : Result.t) (w : World) :
  lastMinorState (state (beforePolicy result w)) = lastMinorState (state w)
  /\ chrome (beforePolicy result w) = chrome w.
Proof. done. Qed.

(** A completed cycle whose verdict is the recorded one sends nothing. *)
Lemma completed_cycle_same_verdict (cfg : Config) (env : Env) (w w' : World)
  (result : Result.t) :
  analyzeFrame cfg env w = (Completed result, w') ->
  lastMinorState (state w) = Some (Result.isMinor result) ->
  lastMinorState (state w') = lastMinorState (state w)
  /\ sendMessageCalls (chrome w') = sendMessageCalls (chrome w)
  /\ dynamicRules (chrome w') = dynamicRules (chrome w).
Proof.
  intros Hrun Hlast.
  apply analyzeFrame_Completed_inv in Hrun as (_ & _ & _ & _ & ->).
  rewrite updateSafeSearch_same by done.
  destruct (windowWritten_frame env (beforePolicy result w))
    as (Hst & _ & Hrules & Hsent & _).
  cbn. by rewrite Hst, Hrules, Hsent.
Qed.

(** A completed cycle with a new verdict and a failing sink call. *)
Lemma completed_cycle_failed_sink (cfg : Config) (env : Env) (w w' : World)
  (result : Result.t) :
  analyzeFrame cfg env w = (Completed result, w') ->
  lastMinorState (state w) <> Some (Result.isMinor result) ->
  sinkFails env ->
  lastMinorState (state w') = Some (Result.isMinor result)
  /\ sendMessageCalls (chrome w')
     = sendMessageCalls (chrome w) ++ [SET_SAFE (Result.isMinor result)]
  /\ dynamicRules (chrome w') = dynamicRules (chrome w).
Proof.
  intros Hrun Hne Hfail.
  apply analyzeFrame_Completed_inv in Hrun as (_ & _ & _ & _ & ->).
  destruct (updateSafeSearch_failed_sink env (Result.isMinor result)
              (beforePolicy result w) Hne Hfail)
    as (Hlast & Hsent & Hrules & _).
  destruct (windowWritten_frame env
              (run (updateSafeSearch env (Result.isMinor result))
                   (beforePolicy result w)).2)
    as (Hst & _ & Hrules' & Hsent' & _).
  cbn. by rewrite Hst, Hrules', Hsent'.
Qed.

(** The cycle after a completed one runs again: the guard flag is down
    and the model is still loaded. *)
Lemma scenario_B_next_cycle (c1 : World) :
  analyzeFrame CONFIG (envSink SendThrows None) world0
  = (Completed (makeResult [0.46]), c1) ->
  exists c2,
    analyzeFrame CONFIG (envSink Delivered None) c1
    = (Completed (makeResult [0.46]), c2).
Proof.
  intros Hrun1.
  apply analyzeFrame_Completed_inv in Hrun1 as (_ & _ & _ & _ & Hc1).
  destruct (updateSafeSearch_effect (envSink SendThrows None)
              (Result.isMinor (makeResult [0.46]))
              (beforePolicy (makeResult [0.46]) world0))
    as (w2 & Hupd & _ & Hsess & _).
  rewrite Hupd in Hc1. cbn [snd] in Hc1.
  pose proof (analyzeFrame_completes CONFIG (envSink Delivered None) c1)
    as Hrun2.
  rewrite scenario_B_probabilities in Hrun2.
  eexists. apply Hrun2.
  - by rewrite Hc1.
  - rewrite Hc1. cbn. rewrite Hsess. done.
  - done.
Qed.

(** C10.  When the verdict differs from the recorded one, the controller
    records it and sends the message; if the sink call then fails (not
    delivered, throwing, or answered with an error) the record is kept:
    the rules are as they were, the recorded verdict is the new one, and a
    following invocation with the same verdict, whatever the sink would
    answer then, sends nothing and leaves the rules as they were.  The
    same for whole cycles: after a completed analysis whose sink call
    failed, the next completed analysis with the same verdict sends no
    message, so that the rules stay what they were before the first. *)
Theorem failed_sink_call_not_retried :
  forall (env1 env2 : Env) (isMinor : bool) (w : World),
    lastMinorState (state w) <> Some isMinor ->
    sinkFails env1 ->
    (let w1 := (run (updateSafeSearch env1 isMinor) w).2 in
     let w2 := (run (updateSafeSearch env2 isMinor) w1).2 in
     lastMinorState (state w1) = Some isMinor
     /\ sendMessageCalls (chrome w1)
        = sendMessageCalls (chrome w) ++ [SET_SAFE isMinor]
     /\ dynamicRules (chrome w1) = dynamicRules (chrome w)
     /\ w2 = w1)
    /\ (forall (cfg1 cfg2 : Config) (result1 result2 : Result.t)
               (c1 c2 : World),
          analyzeFrame cfg1 env1 w = (Completed result1, c1) ->
          Result.isMinor result1 = isMinor ->
          analyzeFrame cfg2 env2 c1 = (Completed result2, c2) ->
          Result.isMinor result2 = isMinor ->
          lastMinorState (state c1) = Some isMinor
          /\ dynamicRules (chrome c1) = dynamicRules (chrome w)
          /\ sendMessageCalls (chrome c2)
             = sendMessageCalls (chrome w) ++ [SET_SAFE isMinor]
          /\ dynamicRules (chrome c2) = dynamicRules (chrome w)).
Proof.
  intros env1 env2 isMinor w Hne Hfail. split.
  - intros w1 w2.
    destruct (updateSafeSearch_failed_sink env1 isMinor w Hne Hfail)
      as (Hlast & Hsent & Hrules & _).
    fold w1 in Hlast, Hsent, Hrules.
    assert (Hw2 : w2 = w1).
    { unfold w2. by rewrite (updateSafeSearch_same env2 isMinor w1 Hlast). }
    done.
  - intros cfg1 cfg2 result1 result2 c1 c2 Hrun1 Hm1 Hrun2 Hm2.
    subst isMinor.
    destruct (completed_cycle_failed_sink cfg1 env1 w c1 result1
                Hrun1 Hne Hfail) as (Hlast1 & Hsent1 & Hrules1).
    rewrite <- Hm2 in Hlast1.
    destruct (completed_cycle_same_verdict cfg2 env2 c1 c2 result2
                Hrun2 Hlast1) as (_ & Hsent2 & Hrules2).
    rewrite Hsent2, Hrules2, Hsent1, Hrules1, <- Hm2. done.
Qed.

Lemma failed_sink_call_not_retried_witness :
  (let w1 := (run (updateSafeSearch (envSink SendThrows None) true) world0).2 in
   lastMinorState (state w1) = Some true
   /\ dynamicRules (chrome w1) = ∅
   /\ (run (updateSafeSearch (envSink Delivered None) true) w1).2 = w1)
  /\ exists c1 c2,
       analyzeFrame CONFIG (envSink SendThrows None) world0
       = (Completed (makeResult [0.46]), c1)
       /\ analyzeFrame CONFIG (envSink Delivered None) c1
          = (Completed (makeResult [0.46]), c2)
       /\ sendMessageCalls (chrome c2) = [SET_SAFE true]
       /\ dynamicRules (chrome c2) = ∅.
Proof.
  destruct (failed_sink_call_not_retried
              (envSink SendThrows None) (envSink Delivered None) true world0)
    as ((Hlast & _ & Hrules & Hsame) & Hcycles).
  - discriminate.
  - left. discriminate.
  - split; [repeat split; assumption|].
    destruct (scenario_B_completes SendThrows None) as (c1 & Hrun1).
    destruct (scenario_B_next_cycle c1 Hrun1) as (c2 & Hrun2).
    destruct (makeResult_singleton_MINOR 0.46 ltac:(lra)) as (_ & _ & Hminor).
    destruct (Hcycles CONFIG CONFIG _ _ c1 c2 Hrun1 Hminor Hrun2 Hminor)
      as (_ & _ & Hsent & Hrules2).
    exists c1, c2. repeat split; assumption.
Defined.

(** ** The aggregation on the spec's scenarios *)

Lemma sqrt_lt_bound (v c : R) : 0 <= v -> 0 < c -> v < c * c -> sqrt v < c.
Proof.
  intros Hv Hc Hlt.
  rewrite <- (sqrt_square c) by lra.
  apply sqrt_lt_1_alt. lra.
Qed.

(** Scenario B: the single pass 0.46 is a MINOR verdict, and so close to
    the boundary that the confidence falls to the floor. *)
Example scenario_B_result :
  makeResult [0.46] = Result.mk MINOR 0.55 true 0.46 0.46 1.
Proof.
  unfold makeResult. rewrite avgProb_singleton.
  rewrite (proj2 (prediction_MINOR 0.46)) by lra.
  rewrite (proj2 (isMinor_true 0.46)) by lra.
  cbn [length]. f_equal.
  assert (Hc : clampedConfidence [0.46] = 0.56).
  { unfold clampedConfidence, rawConfidence, distanceFromThreshold.
    rewrite avgProb_singleton, decide_True by done.
    rewrite (Rabs_left (0.46 - 0.5)) by lra.
    minmax. }
  rewrite Hc. unfold adjustConfidence.
  rewrite thresholdDistance_MINOR by lra.
  rewrite (Rabs_left (0.46 - 0.48)) by lra.
  rewrite decide_True by lra.
  minmax.
Qed.

(** Scenario D: the passes 0.40, 0.55 and 0.48. *)
Example scenario_D_result :
  makeResult [0.4; 0.55; 0.48]
  = Result.mk MINOR (2.0638 / 3) true (1.43 / 3) (1.43 / 3) 3.
Proof.
  set (l := [0.4; 0.55; 0.48]).
  assert (Havg : avgProb l = 1.43 / 3).
  { unfold avgProb, Math.sum, l. simpl. lra. }
  assert (Hrange : range l = 0.15).
  { unfold range, maxProb, minProb, Math.max, Math.min, l. simpl.
    minmax. }
  assert (Hstd : stdDev l < 0.1).
  { unfold stdDev. rewrite Havg. unfold l. simpl.
    apply sqrt_lt_bound; lra. }
  assert (Hagree : agreement l = 2 / 3).
  { unfold agreement, majorVotes, minorVotes, l.
    rewrite (filter_cons_False (fun p => p >= 0.5) 0.4) by lra.
    rewrite (filter_cons_True (fun p => p >= 0.5) 0.55) by lra.
    rewrite (filter_cons_False (fun p => p >= 0.5) 0.48) by lra.
    rewrite (filter_cons_True (fun p => p < 0.5) 0.4) by lra.
    rewrite (filter_cons_False (fun p => p < 0.5) 0.55) by lra.
    rewrite (filter_cons_True (fun p => p < 0.5) 0.48) by lra.
    simpl. lra. }
  assert (Hraw : rawConfidence l = 2.428 / 3).
  { unfold rawConfidence, distanceFromThreshold.
    rewrite decide_False by (unfold l; simpl; lia).
    rewrite Havg, Hrange, Hagree. cbv zeta.
    rewrite decide_False by (intros [?|?]; lra).
    rewrite decide_True by (split; lra).
    rewrite (Rabs_left (1.43 / 3 - 0.5)) by lra.
    minmax. }
  unfold makeResult. rewrite Havg.
  rewrite (proj2 (prediction_MINOR (1.43 / 3))) by lra.
  rewrite (proj2 (isMinor_true (1.43 / 3))) by lra.
  f_equal.
  unfold adjustConfidence, clampedConfidence. rewrite Hraw.
  rewrite thresholdDistance_MINOR by lra.
  rewrite (Rabs_left (1.43 / 3 - 0.48)) by lra.
  rewrite decide_True by lra.
  minmax.
Qed.

(** * Properties of the rest of the pipeline *)

(** ** What a cycle leaves alone *)

Lemma updateSafeSearch_frame (env : Env) (isMinor : bool) (w : World) :
  let w' := (run (updateSafeSearch env isMinor) w).2 in
  (forall key : string,
      key <> "isMinor" -> local (chrome w') !! key = local (chrome w) !! key)
  /\ (forall id : Z,
        id <> RULE_ID_GOOGLE -> id <> RULE_ID_BING ->
        id ∈ dynamicRules (chrome w') <-> id ∈ dynamicRules (chrome w)).
Proof.
  destruct (decide (lastMinorState (state w) = Some isMinor)) as [Heq|Hne].
  - rewrite updateSafeSearch_same by done. done.
  - unfold updateSafeSearch.
    destruct env as [inf [| |] [message|] nw we], isMinor;
      cbn; rewrite decide_False by done; cbn;
      try destruct (bool_decide (lockedMessage message <> ""));
      cbn; (split; [intros key Hkey; by rewrite ?lookup_insert_ne|]);
      intros id Hg Hb; set_unfold; tauto.
Qed.

(** The world of a cycle that does not complete. *)
Lemma analyzeFrame_not_completed (cfg : Config) (env : Env) (w : World) :
  (forall result, (analyzeFrame cfg env w).1 <> Completed result) ->
  chrome (analyzeFrame cfg env w).2 = chrome w
  /\ lastMinorState (state (analyzeFrame cfg env w).2)
     = lastMinorState (state w).
Proof.
  rewrite analyzeFrame_run. intros Hnot.
  destruct (isAnalyzing (state w)); [done|].
  destruct (session (state w)); [|done].
  destruct (finalProbabilities cfg env) as [|p ps]; [done|].
  exfalso. cbv zeta in Hnot. by eapply Hnot.
Qed.

(** X1: a cycle, however it ends, writes no key of the store other than
    [isMinor] and [verificationAllowedUntil] (the consent record is never
    touched) and changes no redirect rule other than the two of the
    extension. *)
Theorem analyzeFrame_touches_only_its_keys :
  forall (cfg : Config) (env : Env) (w : World),
    let w' := (analyzeFrame cfg env w).2 in
    (forall key : string,
        key <> "isMinor" -> key <> "verificationAllowedUntil" ->
        local (chrome w') !! key = local (chrome w) !! key)
    /\ local (chrome w') !! "consentGiven"
       = local (chrome w) !! "consentGiven"
    /\ (forall id : Z,
          id <> RULE_ID_GOOGLE -> id <> RULE_ID_BING ->
          id ∈ dynamicRules (chrome w') <-> id ∈ dynamicRules (chrome w)).
Proof.
  intros cfg env w w'.
  assert (Hkeys : forall key : string,
             key <> "isMinor" -> key <> "verificationAllowedUntil" ->
             local (chrome w') !! key = local (chrome w) !! key).
  { intros key Hk1 Hk2. unfold w'. rewrite analyzeFrame_run.
    destruct (isAnalyzing (state w)); [done|].
    destruct (session (state w)); [|done].
    destruct (finalProbabilities cfg env) as [|p ps]; [done|].
    cbv zeta. unfold windowWritten.
    destruct (windowWriteError env); cbn;
      rewrite ?lookup_insert_ne by done;
      by apply (updateSafeSearch_frame env _ (beforePolicy _ w)). }
  split; [exact Hkeys|]. split; [by apply Hkeys|].
  intros id Hg Hb. unfold w'. rewrite analyzeFrame_run.
  destruct (isAnalyzing (state w)); [done|].
  destruct (session (state w)); [|done].
  destruct (finalProbabilities cfg env) as [|p ps]; [done|].
  cbv zeta. unfold windowWritten.
  destruct (windowWriteError env); cbn;
    by apply (updateSafeSearch_frame env _ (beforePolicy _ w)).
Qed.

(** X2: the guard flag.  While an analysis is in progress a further call
    returns at once and changes nothing; a call that starts always ends
    with the flag down again, whether it completes or fails, and never
    unloads the model. *)
Theorem analyzeFrame_guard :
  forall (cfg : Config) (env : Env) (w : World),
    (isAnalyzing (state w) = true -> analyzeFrame cfg env w = (Skipped, w))
    /\ (isAnalyzing (state w) = false ->
        (analyzeFrame cfg env w).1 <> Skipped
        /\ isAnalyzing (state (analyzeFrame cfg env w).2) = false)
    /\ session (state (analyzeFrame cfg env w).2) = session (state w).
Proof.
  intros cfg env w. rewrite analyzeFrame_run.
  destruct (isAnalyzing (state w)) eqn:Ha.
  - done.
  - split; [done|].
    destruct (session (state w)) eqn:Hs; [|done].
    destruct (finalProbabilities cfg env) as [|p ps]; [done|].
    destruct (updateSafeSearch_effect env
                (Result.isMinor (makeResult (p :: ps)))
                (beforePolicy (makeResult (p :: ps)) w))
      as (w2 & Hrun & _ & Hsess & _).
    unfold beforePolicy in Hrun, Hsess.
    cbv beta iota zeta. rewrite Hrun. unfold windowWritten.
    destruct (windowWriteError env); cbn; rewrite Hsess; done.
Qed.

(** X3: after a completed cycle the display, the recorded verdict and the
    message to the sink agree with the result object: the result text is
    its prediction, [lastMinorState] is its [isMinor], which is true
    exactly for MINOR, and the only message the cycle can have sent is
    [SET_SAFE] with that value. *)
Theorem completed_cycle_is_consistent (cfg : Config) (env : Env)
  (w w' : World) (result : Result.t) :
  analyzeFrame cfg env w = (Completed result, w') ->
  resultText (elements w') = predictionText (Result.prediction result)
  /\ resultCard (elements w') = Some (Result.prediction result)
  /\ (Result.isMinor result = true <-> Result.prediction result = MINOR)
  /\ lastMinorState (state w') = Some (Result.isMinor result)
  /\ (sendMessageCalls (chrome w') = sendMessageCalls (chrome w)
      \/ sendMessageCalls (chrome w')
         = sendMessageCalls (chrome w) ++ [SET_SAFE (Result.isMinor result)]).
Proof.
  intros Hrun.
  apply analyzeFrame_Completed_inv in Hrun as (_ & _ & _ & Hres & ->).
  destruct (updateSafeSearch_effect env (Result.isMinor result)
              (beforePolicy result w))
    as (w2 & Hupd & Hlast & _ & _ & Htext & Hcard & Hsent & _).
  rewrite Hupd.
  destruct (windowWritten_frame env w2) as (Hst & Hel & _ & Hmsg & _).
  cbn. rewrite Hst, Hel, Hmsg.
  assert (Hmin : Result.isMinor result = true
                 <-> Result.prediction result = MINOR).
  { rewrite Hres. unfold makeResult. cbn. unfold isMinor.
    apply bool_decide_eq_true. }
  split; [by rewrite Htext|]. split.
  - rewrite Hcard. cbn. f_equal.
    destruct (Result.isMinor result) eqn:Hm.
    + symmetry. by apply Hmin.
    + destruct (Result.prediction result); [done|].
      by assert (false = true) by (by apply Hmin).
  - split; [exact Hmin|]. split; [exact Hlast|].
    rewrite Hsent. destruct (decide _); [left; by rewrite app_nil_r|by right].
Qed.

Lemma completed_cycle_is_consistent_witness :
  exists w',
    analyzeFrame CONFIG (envSink Delivered None) world0
    = (Completed (makeResult [0.46]), w')
    /\ lastMinorState (state w')
       = Some (Result.isMinor (makeResult [0.46])).
Proof.
  destruct (scenario_B_completes Delivered None) as (w' & Hrun).
  exists w'. split; [exact Hrun|].
  apply (completed_cycle_is_consistent CONFIG (envSink Delivered None)
           world0 w' (makeResult [0.46]) Hrun).
Defined.

(** X4: a further cycle with the same verdict.  After a completed cycle, a
    cycle whose passes lead to the same [isMinor] completes without
    calling the sink: no message is sent, the rules are unchanged, the
    store changes in the verification window at most, which is moved to
    the new time when the store accepts the write and stays when it
    rejects it, and the SafeSearch badge, hidden at the start of the
    cycle, is not shown again. *)
Theorem repeated_cycle_sends_nothing (cfg : Config) (env env' : Env)
  (w w1 : World) (result : Result.t) :
  analyzeFrame cfg env w = (Completed result, w1) ->
  finalProbabilities cfg env' <> [] ->
  Result.isMinor (makeResult (finalProbabilities cfg env'))
  = Result.isMinor result ->
  exists w2,
    analyzeFrame cfg env' w1
    = (Completed (makeResult (finalProbabilities cfg env')), w2)
    /\ sendMessageCalls (chrome w2) = sendMessageCalls (chrome w1)
    /\ dynamicRules (chrome w2) = dynamicRules (chrome w1)
    /\ local (chrome w2)
       = match windowWriteError env' with
         | None =>
             <["verificationAllowedUntil" := VNum (now env' + 3600000)]>
               (local (chrome w1))
         | Some _ => local (chrome w1)
         end
    /\ safesearchBadge (elements w2) = None
    /\ errorBadge (elements w2) = false
    /\ state w2 = state w1.
Proof.
  intros Hrun Hne Hsame.
  apply analyzeFrame_Completed_inv in Hrun as (_ & Hsess & _ & _ & ->).
  destruct (updateSafeSearch_effect env (Result.isMinor result)
              (beforePolicy result w))
    as (w2 & Hupd & Hlast & Hsess2 & Han & _).
  rewrite Hupd. cbn [snd].
  destruct (windowWritten_frame env w2) as (Hst & _).
  set (w1 := set_isAnalyzing false _).
  assert (Hlast1 : lastMinorState (state w1) = Some (Result.isMinor result)).
  { unfold w1. cbn. by rewrite Hst. }
  assert (Hsess1 : session (state w1) = true).
  { unfold w1. cbn. rewrite Hst, Hsess2. exact Hsess. }
  assert (Han1 : isAnalyzing (state w1) = false) by done.
  clearbody w1. eexists. split.
  - apply analyzeFrame_completes; [exact Han1|exact Hsess1|exact Hne].
  - rewrite updateSafeSearch_same by (rewrite Hsame; exact Hlast1).
    unfold windowWritten.
    destruct w1 as [[s l a] els chr]. cbn in Han1. subst a.
    destruct (windowWriteError env'); cbn; done.
Qed.

Lemma repeated_cycle_sends_nothing_witness :
  exists w1 w2,
    analyzeFrame CONFIG (envSink Delivered None) world0
    = (Completed (makeResult [0.46]), w1)
    /\ analyzeFrame CONFIG (envSink SendThrows None) w1
       = (Completed (makeResult [0.46]), w2)
    /\ sendMessageCalls (chrome w2) = sendMessageCalls (chrome w1).
Proof.
  destruct (scenario_B_completes Delivered None) as (w1 & Hrun).
  destruct (repeated_cycle_sends_nothing CONFIG (envSink Delivered None)
              (envSink SendThrows None) world0 w1 (makeResult [0.46]) Hrun)
    as (w2 & Hrun2 & Hsent & _).
  - rewrite scenario_B_probabilities. done.
  - by rewrite scenario_B_probabilities.
  - rewrite scenario_B_probabilities in Hrun2. by exists w1, w2.
Defined.

(** ** The aggregated probability *)

Lemma validProbability_range (o : PassOutcome) (p : R) :
  validProbability o = Some p -> 0 <= p <= 1.
Proof.
  destruct o as [|outputData]; [done|].
  rewrite validProbability_interpret. apply interpret_bounds.
Qed.

Lemma validProbabilities_range (env : Env) (paddingValues : list Z)
  (padIdx : nat) :
  Forall (fun p => 0 <= p <= 1) (validProbabilities env padIdx paddingValues)
  /\ (length (validProbabilities env padIdx paddingValues)
      <= length paddingValues)%nat.
Proof.
  revert padIdx.
  induction paddingValues as [|pad rest IH]; intros padIdx; cbn.
  - split; [constructor|lia].
  - destruct (IH (S padIdx)) as [Hall Hlen].
    destruct (validProbability (infer env padIdx pad)) as [p|] eqn:Hp; cbn.
    + split; [|lia]. constructor; [|done]. by eapply validProbability_range.
    + split; [done|lia].
Qed.

Lemma finalProbabilities_range (cfg : Config) (env : Env) :
  Forall (fun p => 0 <= p <= 1) (finalProbabilities cfg env)
  /\ (length (finalProbabilities cfg env)
      <= Nat.max 1 (length (TTA_PADDINGS cfg)))%nat.
Proof.
  unfold finalProbabilities. cbv zeta.
  rewrite passes_validProbabilities.
  destruct (validProbabilities_range env (TTA_PADDINGS cfg) 0) as [Hall Hlen].
  destruct (decide _) as [Hzero|Hpos].
  - destruct (validProbability _) as [p|] eqn:Hp; cbn.
    + split; [|lia]. constructor; [|done]. by eapply validProbability_range.
    + split; [done|lia].
  - split; [done|lia].
Qed.

Lemma sum_bounds (lo hi : R) (l : list R) :
  Forall (fun p => lo <= p <= hi) l ->
  INR (length l) * lo <= fold_right Rplus 0 l <= INR (length l) * hi.
Proof.
  induction 1 as [|p l Hp _ IH].
  - simpl. lra.
  - change (length (p :: l)) with (S (length l)). rewrite S_INR. simpl. lra.
Qed.

Lemma avgProb_bounds (lo hi : R) (l : list R) :
  l <> [] ->
  Forall (fun p => lo <= p <= hi) l ->
  lo <= avgProb l <= hi.
Proof.
  intros Hne Hall. rewrite avgProb_mean. unfold mean.
  pose proof (sum_bounds lo hi l Hall) as Hsum.
  assert (Hn : 0 < INR (length l)).
  { apply lt_0_INR. destruct l; [done|cbn; lia]. }
  split.
  - apply (Rmult_le_reg_r (INR (length l))); [done|].
    unfold Rdiv. rewrite Rmult_assoc, Rinv_l by lra. lra.
  - apply (Rmult_le_reg_r (INR (length l))); [done|].
    unfold Rdiv. rewrite Rmult_assoc, Rinv_l by lra. lra.
Qed.

Lemma fold_left_Rmin_lower (l : list R) (a : R) :
  fold_left Rmin l a <= a /\ Forall (fun y => fold_left Rmin l a <= y) l.
Proof.
  revert a. induction l as [|x l IH]; intros a; simpl.
  - split; [lra|constructor].
  - destruct (IH (Rmin a x)) as [Hle Hall].
    pose proof (Rmin_l a x). pose proof (Rmin_r a x).
    split; [lra|]. constructor; [lra|done].
Qed.

Lemma fold_left_Rmax_upper (l : list R) (a : R) :
  a <= fold_left Rmax l a /\ Forall (fun y => y <= fold_left Rmax l a) l.
Proof.
  revert a. induction l as [|x l IH]; intros a; simpl.
  - split; [lra|constructor].
  - destruct (IH (Rmax a x)) as [Hle Hall].
    pose proof (Rmax_l a x). pose proof (Rmax_r a x).
    split; [lra|]. constructor; [lra|done].
Qed.

Lemma passes_between_min_max (l : list R) :
  Forall (fun p => Math.min l <= p <= Math.max l) l.
Proof.
  destruct l as [|x l]; [constructor|].
  unfold Math.min, Math.max.
  destruct (fold_left_Rmin_lower l x) as [Hmin Hmins].
  destruct (fold_left_Rmax_upper l x) as [Hmax Hmaxs].
  constructor; [done|].
  rewrite Forall_forall in *. intros y Hy. split; auto.
Qed.

(** X5: a completed cycle reports a probability in [0,1], twice (the two
    fields are the same number), computed from at least one pass and from
    no more passes than there are padding values. *)
Theorem completed_cycle_probability_range (cfg : Config) (env : Env)
  (w w' : World) (result : Result.t) :
  analyzeFrame cfg env w = (Completed result, w') ->
  0 <= Result.probability result <= 1
  /\ Result.rawProbability result = Result.probability result
  /\ (1 <= Result.inferenceCount result
      <= Nat.max 1 (length (TTA_PADDINGS cfg)))%nat.
Proof.
  intros Hrun.
  apply analyzeFrame_Completed_inv in Hrun as (_ & _ & Hne & -> & _).
  destruct (finalProbabilities_range cfg env) as [Hall Hlen].
  unfold makeResult. cbn [Result.probability Result.rawProbability
                            Result.inferenceCount].
  split; [by apply avgProb_bounds|]. split; [done|].
  split; [|done]. destruct (finalProbabilities cfg env); [done|cbn; lia].
Qed.

Lemma completed_cycle_probability_range_witness :
  0 <= Result.probability (makeResult [0.46]) <= 1.
Proof.
  destruct (scenario_B_completes Delivered None) as (w' & Hrun).
  apply (completed_cycle_probability_range CONFIG (envSink Delivered None)
           world0 w' (makeResult [0.46]) Hrun).
Defined.

Section PassesInDoubles.

Import PrimFloat.

(** X6: the aggregated probability lies between the smallest and the
    largest pass up to rounding only.  The arithmetic mean of a non-empty
    list of passes lies between them; with n passes in [0,1] and a
    rounding of relative error [u] and absolute error [eta] the
    probability of line 922 lies between (1-u)^(n+1) min - 2 eta and
    (1+u)^(n+1) (max + eta) + eta.  In doubles it does leave the passes:
    three passes of 0.1 give a probability above 0.1, and ten passes of
    0.52 give one below 0.52, hence the verdict MINOR from passes that
    all reach the threshold. *)
Theorem aggregated_probability_between_passes (rnd : R -> R) (u eta : R)
  (l : list R) :
  0 <= u <= 1 ->
  0 <= eta ->
  (forall x : R,
     0 <= x ->
     0 <= rnd x /\ (1 - u) * x - eta <= rnd x <= (1 + u) * x + eta) ->
  l <> [] ->
  Forall (fun p => 0 <= p <= 1) l ->
  minProb l <= mean l <= maxProb l
  /\ ((1 - u) ^ (length l + 1) * minProb l - 2 * eta
      <= Rounded.avgProb rnd l
      <= (1 + u) ^ (length l + 1) * (maxProb l + eta) + eta)
  /\ (Forall (fun p => (p <=? 0.1)%float = true) [0.1; 0.1; 0.1]%float
      /\ (0.1 <? Double.avgProb [0.1; 0.1; 0.1])%float = true)
  /\ (Forall (fun p => (Double.MAJOR_THRESHOLD <=? p)%float = true)
             (replicate 10 0.52%float)
      /\ Double.prediction (Double.avgProb (replicate 10 0.52%float))
         = MINOR).
Proof.
  intros Hu Heta Hrnd Hne Hall.
  pose proof (avgProb_bounds (Math.min l) (Math.max l) l Hne
                (passes_between_min_max l)) as Hbetween.
  rewrite avgProb_mean in Hbetween. fold (minProb l) (maxProb l) in Hbetween.
  pose proof (rounded_avgProb_bounds rnd u eta Hu Heta Hrnd l Hne Hall)
    as Hbounds.
  pose proof (pow_1u_ge_1 u Hu (length l + 1)) as Hp1.
  pose proof (pow_1u_le_1 u Hu (length l + 1)) as Hq1.
  split; [exact Hbetween|]. split.
  - split.
    + apply Rle_trans
        with ((1 - u) ^ (length l + 1) * mean l - 2 * eta); [|apply Hbounds].
      assert ((1 - u) ^ (length l + 1) * minProb l
              <= (1 - u) ^ (length l + 1) * mean l)
        by (apply Rmult_le_compat_l; lra).
      lra.
    + apply Rle_trans
        with ((1 + u) ^ (length l + 1) * (mean l + eta) + eta);
        [apply Hbounds|].
      assert ((1 + u) ^ (length l + 1) * (mean l + eta)
              <= (1 + u) ^ (length l + 1) * (maxProb l + eta))
        by (apply Rmult_le_compat_l; lra).
      lra.
  - split; (split; [by repeat constructor|reflexivity]).
Qed.

End PassesInDoubles.

Lemma aggregated_probability_between_passes_witness :
  minProb [0.6; 0.7] <= mean [0.6; 0.7] <= maxProb [0.6; 0.7]
  /\ minProb [0.6; 0.7] <= Rounded.avgProb (fun x => x) [0.6; 0.7]
     <= maxProb [0.6; 0.7].
Proof.
  destruct (aggregated_probability_between_passes (fun x => x) 0 0
              [0.6; 0.7])
    as (Hmean & Hrounded & _).
  - lra.
  - lra.
  - intros x Hx. lra.
  - discriminate.
  - repeat constructor; lra.
  - split; [exact Hmean|].
    cbn [length Nat.add pow] in Hrounded. lra.
Defined.

(** ** The page gate *)

Lemma checkAndApply_overlay (now : Z) (store : gmap string JsVal)
  (page : Page) :
  overlay (checkAndApply false now store page)
  = mustBlock (store !! "verificationAllowedUntil") now.
Proof.
  unfold checkAndApply, blockPage, unblockPage.
  destruct (mustBlock _ _); [|done]. by destruct (overlay page) eqn:Ho.
Qed.

(** X7: a completed analysis opens the gate for one hour.  With the window
    written by a cycle that completed at a time [now >= 0], the content
    script removes the overlay at every time up to [now + 3600000] ms
    included, and puts it at every later time.  When the store rejected
    the write of the window, the content script decides as it did before
    the cycle. *)
Theorem completed_analysis_opens_gate (cfg : Config) (env : Env)
  (w w' : World) (result : Result.t) (t : Z) (page : Page) :
  analyzeFrame cfg env w = (Completed result, w') ->
  (0 <= now env)%Z ->
  (windowWriteError env = None ->
   checkAndApply false t (local (chrome w')) page
   = (if decide (t <= now env + 3600000)%Z
      then unblockPage page else blockPage page)
   /\ (overlay (checkAndApply false t (local (chrome w')) page) = false
       <-> (t <= now env + 3600000)%Z))
  /\ (windowWriteError env <> None ->
      checkAndApply false t (local (chrome w')) page
      = checkAndApply false t (local (chrome w)) page).
Proof.
  intros Hrun Hnow.
  apply analyzeFrame_Completed_inv in Hrun as (_ & _ & _ & _ & ->).
  destruct (updateSafeSearch_effect env (Result.isMinor result)
              (beforePolicy result w))
    as (w2 & Hupd & _ & _ & _ & _ & _ & _ & Hkept).
  rewrite Hupd. cbn [snd]. unfold windowWritten. split.
  - intros ->.
    assert (Hwin : local (chrome
                     (set_isAnalyzing false
                        (storage_set "verificationAllowedUntil"
                           (VNum (now env + 60 * 60 * 1000)) w2)))
                   !! "verificationAllowedUntil"
                   = Some (VNum (now env + 3600000))).
    { cbn. by rewrite lookup_insert_eq. }
    assert (Hblock : mustBlock (Some (VNum (now env + 3600000))) t
                     = bool_decide (t > now env + 3600000)%Z).
    { cbn. rewrite bool_decide_eq_false_2 by lia. done. }
    split.
    + unfold checkAndApply. rewrite Hwin, Hblock.
      destruct (decide (t <= now env + 3600000)%Z).
      * by rewrite bool_decide_eq_false_2 by lia.
      * by rewrite bool_decide_eq_true_2 by lia.
    + rewrite checkAndApply_overlay, Hwin, Hblock.
      rewrite bool_decide_eq_false. lia.
  - intros Hrej. destruct (windowWriteError env); [|done].
    unfold checkAndApply. cbn. by rewrite Hkept.
Qed.

Lemma completed_analysis_opens_gate_witness :
  exists w',
    analyzeFrame CONFIG (envSink Delivered None) world0
    = (Completed (makeResult [0.46]), w')
    /\ overlay (checkAndApply false 3601000 (local (chrome w'))
                  (mkPage true true true)) = false
    /\ overlay (checkAndApply false 3601001 (local (chrome w'))
                  (mkPage false false false)) = true.
Proof.
  destruct (scenario_B_completes Delivered None) as (w' & Hrun).
  exists w'. split; [exact Hrun|]. split.
  - destruct (completed_analysis_opens_gate CONFIG (envSink Delivered None)
                world0 w' (makeResult [0.46]) 3601000 (mkPage true true true)
                Hrun) as [Hopen _]; [cbn; lia|].
    apply (Hopen eq_refl). cbn. lia.
  - destruct (completed_analysis_opens_gate CONFIG (envSink Delivered None)
                world0 w' (makeResult [0.46]) 3601001
                (mkPage false false false) Hrun) as [Hopen _]; [cbn; lia|].
    destruct (Hopen eq_refl) as [Heq _].
    rewrite Heq. rewrite decide_False by (cbn; lia). done.
Defined.

(** X8: without a verification window the page is blocked.  When the key
    is missing, holds a boolean or holds 0, the content script puts the
    overlay at every time; and a cycle that does not complete (failed or
    skipped) leaves the decision of the gate what it was.  When the read
    of the store throws, the page is left as it is. *)
Theorem gate_blocks_without_window :
  forall (t : Z) (store : gmap string JsVal) (page : Page),
    ((store !! "verificationAllowedUntil" = None
      \/ (exists b, store !! "verificationAllowedUntil" = Some (VBool b))
      \/ store !! "verificationAllowedUntil" = Some (VNum 0)) ->
     overlay (checkAndApply false t store page) = true)
    /\ checkAndApply true t store page = page
    /\ (forall (cfg : Config) (env : Env) (w : World),
          (forall result, (analyzeFrame cfg env w).1 <> Completed result) ->
          checkAndApply false t (local (chrome (analyzeFrame cfg env w).2))
                        page
          = checkAndApply false t (local (chrome w)) page).
Proof.
  intros t store page. split; [|split].
  - intros Hkey. rewrite checkAndApply_overlay.
    destruct Hkey as [-> | [[b ->] | ->]]; done.
  - done.
  - intros cfg env w Hnot.
    destruct (analyzeFrame_not_completed cfg env w Hnot) as [-> _]. done.
Qed.

(** ** The policy sink seen from the popup *)

Lemma lockedMessage_nonempty (message : string) : lockedMessage message <> "".
Proof. unfold lockedMessage. destruct (decide (message = "")); done. Qed.

(** X9: a delivered and successful sink call.  When the verdict is new,
    the message is delivered and the browser accepts the rule update, then
    afterwards the two redirect rules of the extension are present exactly
    when the verdict is minor, every other rule is as before, the store
    holds the verdict under [isMinor], the badge shows it and the error
    badge is off. *)
Theorem sink_success_switches_rules (env : Env) (isMinor : bool)
  (w : World) :
  lastMinorState (state w) <> Some isMinor ->
  sendOutcome env = Delivered ->
  updateDynamicRulesError env = None ->
  let w' := (run (updateSafeSearch env isMinor) w).2 in
  (RULE_ID_GOOGLE ∈ dynamicRules (chrome w') <-> isMinor = true)
  /\ (RULE_ID_BING ∈ dynamicRules (chrome w') <-> isMinor = true)
  /\ (forall id : Z,
        id <> RULE_ID_GOOGLE -> id <> RULE_ID_BING ->
        id ∈ dynamicRules (chrome w') <-> id ∈ dynamicRules (chrome w))
  /\ local (chrome w') !! "isMinor" = Some (VBool isMinor)
  /\ safesearchBadge (elements w') = Some isMinor
  /\ errorBadge (elements w') = false
  /\ lastMinorState (state w') = Some isMinor
  /\ sendMessageCalls (chrome w')
     = sendMessageCalls (chrome w) ++ [SET_SAFE isMinor].
Proof.
  intros Hne Hd Hr w'.
  destruct (updateSafeSearch_delivered env isMinor w Hne Hd Hr)
    as (Hstore & Hrules & Hbadge).
  destruct (updateSafeSearch_effect env isMinor w)
    as (w2 & Hrun & Hlast & _ & _ & _ & _ & Hsent & _).
  pose proof (updateSafeSearch_frame env isMinor w) as [_ Hframe].
  fold w' in Hstore, Hrules, Hbadge, Hframe.
  assert (Hw' : w' = w2) by (unfold w'; by rewrite Hrun).
  rewrite decide_False in Hsent by done.
  assert (Herr : errorBadge (elements w') = false).
  { unfold w', updateSafeSearch. destruct env as [inf so ue nw we].
    cbn in Hd, Hr. subst so ue.
    destruct isMinor; cbn; rewrite decide_False by done; done. }
  split; [|split; [|split; [exact Hframe|]]].
  - rewrite Hrules. destruct isMinor; set_unfold; [tauto|].
    split; [tauto|done].
  - rewrite Hrules. destruct isMinor; set_unfold; [tauto|].
    split; [tauto|done].
  - rewrite Hw' in *. done.
Qed.

Lemma sink_success_switches_rules_witness :
  let w' := (run (updateSafeSearch (envSink Delivered None) true) world0).2 in
  RULE_ID_GOOGLE ∈ dynamicRules (chrome w')
  /\ local (chrome w') !! "isMinor" = Some (VBool true).
Proof.
  destruct (sink_success_switches_rules (envSink Delivered None) true world0)
    as (Hg & _ & _ & Hstore & _); [discriminate|reflexivity|reflexivity|].
  split; [by apply Hg|exact Hstore].
Defined.

(** X10: what the user sees when the sink call fails.  If the message is
    delivered but the browser refuses the rule update, the error badge is
    shown with the locked text, the rules are unchanged, and the store
    holds the new verdict all the same.  If sending throws, the error
    badge is shown with the other text and store and rules are
    unchanged.  If the callback gets no response, nothing is shown and
    nothing is stored.  In the three cases the verdict is recorded in
    [lastMinorState]. *)
Theorem sink_failure_feedback (env : Env) (isMinor : bool) (w : World) :
  lastMinorState (state w) <> Some isMinor ->
  let w' := (run (updateSafeSearch env isMinor) w).2 in
  (sendOutcome env = Delivered ->
   updateDynamicRulesError env <> None ->
   errorBadge (elements w') = true
   /\ errorText (elements w')
      = "SafeSearch is locked by browser settings. Classification successful, but cannot change automatically."
   /\ safesearchBadge (elements w') = safesearchBadge (elements w)
   /\ dynamicRules (chrome w') = dynamicRules (chrome w)
   /\ local (chrome w') !! "isMinor" = Some (VBool isMinor)
   /\ lastMinorState (state w') = Some isMinor)
  /\ (sendOutcome env = SendThrows ->
      errorBadge (elements w') = true
      /\ errorText (elements w')
         = "Could not update SafeSearch. Classification successful."
      /\ local (chrome w') = local (chrome w)
      /\ dynamicRules (chrome w') = dynamicRules (chrome w)
      /\ lastMinorState (state w') = Some isMinor)
  /\ (sendOutcome env = NoResponse ->
      elements w' = elements w
      /\ local (chrome w') = local (chrome w)
      /\ dynamicRules (chrome w') = dynamicRules (chrome w)
      /\ lastMinorState (state w') = Some isMinor).
Proof.
  intros Hne w'. unfold w', updateSafeSearch.
  destruct env as [inf so ue nw we]. cbn [sendOutcome updateDynamicRulesError].
  split; [|split]; intros ->.
  - intros Hue. destruct ue as [message|]; [|done].
    destruct isMinor; cbn; rewrite decide_False by done; cbn;
      rewrite (bool_decide_eq_true_2 _ (lockedMessage_nonempty message));
      cbn; rewrite lookup_insert_eq; done.
  - destruct isMinor; cbn; rewrite decide_False by done; done.
  - destruct isMinor; cbn; rewrite decide_False by done; cbn;
      by destruct (elements w).
Qed.

Lemma sink_failure_feedback_witness :
  let w' := (run (updateSafeSearch (envSink Delivered (Some "locked")) true)
                 world0).2 in
  errorBadge (elements w') = true
  /\ dynamicRules (chrome w') = ∅
  /\ local (chrome w') !! "isMinor" = Some (VBool true).
Proof.
  destruct (sink_failure_feedback (envSink Delivered (Some "locked")) true
              world0) as (Hlocked & _ & _); [discriminate|].
  destruct Hlocked as (Hb & _ & _ & Hr & Hs & _);
    [reflexivity|discriminate|].
  repeat split; assumption.
Defined.

(** ** Restart and installation *)

Lemma checkConsent_true (env : CameraEnv) (p : Popup) :
  consentReadThrows env = false ->
  truthyVal (local (chrome (world p)) !! "consentGiven") = true ->
  checkConsent env p = (true, p).
Proof. intros Hr Hc. unfold checkConsent. by rewrite Hr, Hc. Qed.

(** What a call of the controller leaves under [isMinor]. *)
Lemma updateSafeSearch_stored (env : Env) (isMinor : bool) (w : World) :
  lastMinorState (state w) <> Some isMinor ->
  local (chrome (run (updateSafeSearch env isMinor) w).2) !! "isMinor"
  = (if decide (sendOutcome env = Delivered)
     then Some (VBool isMinor)
     else local (chrome w) !! "isMinor")
  /\ local (chrome (run (updateSafeSearch env isMinor) w).2) !! "consentGiven"
     = local (chrome w) !! "consentGiven".
Proof.
  intros Hne. unfold updateSafeSearch.
  destruct env as [inf [| |] [message|] nw we], isMinor;
    cbn; rewrite decide_False by done; cbn;
    try destruct (bool_decide (lockedMessage message <> ""));
    cbn; rewrite ?lookup_insert_eq, ?lookup_insert_ne by done; done.
Qed.

(** X11: the recorded verdict across a restart of the popup.  After a call
    of the controller with a new verdict, a popup that starts again (with
    consent given) reads back that verdict if the message was delivered to
    the background script, whether or not the rule update succeeded; if
    the message was not delivered it reads back what was stored before, so
    that the record of the failed call is forgotten. *)
Theorem recorded_verdict_after_restart (env : Env) (cenv : CameraEnv)
  (isMinor : bool) (p : Popup) :
  lastMinorState (state (world p)) <> Some isMinor ->
  consentReadThrows cenv = false ->
  truthyVal (local (chrome (world p)) !! "consentGiven") = true ->
  let w1 := (run (updateSafeSearch env isMinor) (world p)).2 in
  lastMinorState (state (world (initialize cenv (set_world w1 p))))
  = (if decide (sendOutcome env = Delivered)
     then Some isMinor
     else lastStateOf (local (chrome (world p)) !! "isMinor")).
Proof.
  intros Hne Hread Hconsent w1.
  destruct (updateSafeSearch_stored env isMinor (world p) Hne)
    as [Hstored Hkept].
  fold w1 in Hstored, Hkept.
  unfold initialize.
  rewrite checkConsent_true; [|done|cbn; by rewrite Hkept].
  cbn. rewrite Hstored. by destruct (decide _).
Qed.

Lemma recorded_verdict_after_restart_witness :
  let w1 := (run (updateSafeSearch (envSink SendThrows None) true)
                 (world popupConsented)).2 in
  lastMinorState (state w1) = Some true
  /\ lastMinorState
       (state (world (initialize cameraEnvOk (set_world w1 popupConsented))))
     = None.
Proof.
  pose proof (recorded_verdict_after_restart (envSink SendThrows None)
                cameraEnvOk true popupConsented) as Hrestart.
  split.
  - by destruct (updateSafeSearch_effect (envSink SendThrows None) true
                   (world popupConsented)) as (w2 & -> & Hlast & _).
  - rewrite Hrestart; [|discriminate|reflexivity|reflexivity].
    rewrite decide_False by discriminate. reflexivity.
Defined.

(** X12: the installation listener re-installs the rules from the store.
    It ends normally also when the browser refuses the rule update; if the
    store holds a true [isMinor] and the browser
    accepts the rule update, both rules of the extension are present
    afterwards and every other rule and the whole store are as before; if
    [isMinor] is absent or false nothing changes at all. *)
Theorem onInstalled_restores_rules :
  forall (env : Env) (w : World),
    (run (onInstalled env) w).1 = Ok ()
    /\ local (chrome (run (onInstalled env) w).2) = local (chrome w)
    /\ (truthyVal (local (chrome w) !! "isMinor") = false ->
        (run (onInstalled env) w).2 = w)
    /\ (truthyVal (local (chrome w) !! "isMinor") = true ->
        updateDynamicRulesError env = None ->
        RULE_ID_GOOGLE ∈ dynamicRules (chrome (run (onInstalled env) w).2)
        /\ RULE_ID_BING ∈ dynamicRules (chrome (run (onInstalled env) w).2)
        /\ forall id : Z,
             id <> RULE_ID_GOOGLE -> id <> RULE_ID_BING ->
             id ∈ dynamicRules (chrome (run (onInstalled env) w).2)
             <-> id ∈ dynamicRules (chrome w)).
Proof.
  intros env w. unfold onInstalled. cbn.
  destruct (truthyVal (local (chrome w) !! "isMinor")); cbn.
  - destruct env as [inf so [message|] nw we]; cbn.
    + repeat split; done.
    + split; [done|]. split; [done|]. split; [done|]. intros _ _.
      split_and!; [set_unfold; tauto..|].
      intros id Hg Hb. set_unfold. tauto.
  - repeat split; done.
Qed.

(** ** Consent and camera control *)

(** X13: consent round trip.  After the accept handler of the consent page
    has run, [checkConsent] answers yes and opens no window, whatever was
    stored before; the handler changes nothing but the two consent keys.
    Without a stored consent the answer is no and the consent window is
    opened once; when the read of the store throws the answer is no and no
    window is opened. *)
Theorem consent_round_trip :
  forall (env : CameraEnv) (t : Z) (p : Popup),
    (consentReadThrows env = false ->
     checkConsent env (set_world (acceptConsent t (world p)) p)
     = (true, set_world (acceptConsent t (world p)) p))
    /\ (forall key : string,
          key <> "consentGiven" -> key <> "consentTimestamp" ->
          local (chrome (acceptConsent t (world p))) !! key
          = local (chrome (world p)) !! key)
    /\ (consentReadThrows env = false ->
        local (chrome (world p)) !! "consentGiven" = None ->
        (checkConsent env p).1 = false
        /\ consentWindows (checkConsent env p).2 = S (consentWindows p)
        /\ world (checkConsent env p).2 = world p)
    /\ (consentReadThrows env = true -> checkConsent env p = (false, p)).
Proof.
  intros env t p. split_and!.
  - intros Hr. apply checkConsent_true; [done|].
    cbn. rewrite lookup_insert_ne by done. by rewrite lookup_insert_eq.
  - intros key Hk1 Hk2. cbn. by rewrite !lookup_insert_ne.
  - intros Hr Hnone. unfold checkConsent. by rewrite Hr, Hnone.
  - intros Hr. unfold checkConsent. by rewrite Hr.
Qed.

Lemma analyzeFrame_session (cfg : Config) (env : Env) (w : World) :
  session (state (analyzeFrame cfg env w).2) = session (state w).
Proof.
  rewrite analyzeFrame_run.
  destruct (isAnalyzing (state w)); [done|].
  destruct (session (state w)) eqn:Hs; [|done].
  destruct (finalProbabilities cfg env) as [|p ps]; [done|].
  destruct (updateSafeSearch_effect env
              (Result.isMinor (makeResult (p :: ps)))
              (beforePolicy (makeResult (p :: ps)) w))
    as (w2 & Hrun & _ & Hsess & _).
  unfold beforePolicy in Hrun, Hsess.
  cbv beta iota zeta. rewrite Hrun. unfold windowWritten.
  destruct (windowWriteError env); cbn; rewrite Hsess; done.
Qed.

Lemma cameraFailed_state (error : JsError) (p : Popup) :
  world (cameraFailed error p) = world p
  /\ running (cameraFailed error p) = false
  /\ stream (cameraFailed error p) = stream p
  /\ startBtnDisabled (cameraFailed error p) = false
  /\ stopBtnDisabled (cameraFailed error p) = true
  /\ cameraRequests (cameraFailed error p) = cameraRequests p
  /\ consentWindows (cameraFailed error p) = consentWindows p.
Proof.
  unfold cameraFailed. repeat case_decide; repeat case_match; done.
Qed.

Lemma requestCamera_state (env : CameraEnv) (p : Popup) :
  world (requestCamera env p).2 = world p
  /\ running (requestCamera env p).2 = running p
  /\ stream (requestCamera env p).2 = stream p
  /\ hasDetector (requestCamera env p).2 = hasDetector p.
Proof.
  unfold requestCamera. destruct (idealRequest env) as [e|]; [|done].
  by repeat destruct (decide _).
Qed.

(** X14: the consent gate of [startCamera].  Without a stored consent (or
    when the store cannot be read) a start of the camera requests no
    camera, runs no analysis and leaves the world of the analysis (store,
    rules, messages, recorded verdict) untouched; the popup is not
    running afterwards. *)
Theorem startCamera_needs_consent (cfg : Config) (env : CameraEnv)
  (p : Popup) :
  running p = false ->
  consentReadThrows env = true
  \/ truthyVal (local (chrome (world p)) !! "consentGiven") = false ->
  let p' := startCamera cfg env p in
  world p' = world p
  /\ cameraRequests p' = cameraRequests p
  /\ running p' = false
  /\ stream p' = stream p
  /\ statusText p' = "Please accept terms and conditions first".
Proof.
  intros Hrun Hno. unfold startCamera, checkConsent. rewrite Hrun.
  destruct (consentReadThrows env); [done|].
  destruct Hno as [Hno|Hno]; [done|]. by rewrite Hno.
Qed.

Lemma startCamera_needs_consent_witness :
  world (startCamera CONFIG cameraEnvOk popup0) = world0
  /\ cameraRequests (startCamera CONFIG cameraEnvOk popup0) = 0%nat.
Proof.
  destruct (startCamera_needs_consent CONFIG cameraEnvOk popup0)
    as (Hw & Hc & _); [reflexivity|right; reflexivity|].
  split; assumption.
Defined.

Lemma loadModels_state (env : CameraEnv) (p : Popup) :
  let '(ok, p1) := loadModels env p in
  running p1 = running p
  /\ stream p1 = stream p
  /\ chrome (world p1) = chrome (world p)
  /\ cameraRequests p1 = cameraRequests p
  /\ (ok = true -> session (state (world p1)) = true)
  /\ (ok = false -> world p1 = world p /\ session (state (world p)) = false).
Proof.
  unfold loadModels. destruct (hasDetector p); cbn;
    destruct (session (state (world p))) eqn:Hs; cbn;
    try destruct (modelLoads env); cbn; rewrite ?Hs; done.
Qed.

(** The [try] block of [startCamera]: what holds when it ends, with and
    without an error. *)
Lemma startCamera_try_state (cfg : Config) (env : CameraEnv) (p : Popup) :
  let '(error, p1) := startCamera_try cfg env p in
  (error = None ->
   running p1 = true /\ stream p1 = true
   /\ session (state (world p1)) = true /\ stopBtnDisabled p1 = false)
  /\ (session (state (world p1)) = false ->
      chrome (world p1) = chrome (world p)).
Proof.
  unfold startCamera_try.
  destruct (mediaDevicesAvailable env); cbn; [|done].
  pose proof (requestCamera_state env p) as (Hw & _).
  destruct (requestCamera env p) as [[e|] p1]; cbn in *.
  { split; [done|]. by rewrite Hw. }
  destruct (videoReady env) as [e|]; cbn.
  { split; [done|]. by rewrite Hw. }
  match goal with
  | |- context [loadModels env ?q] =>
      pose proof (loadModels_state env q) as Hload;
      destruct (loadModels env q) as [[|] p2]
  end; cbn in *.
  - destruct Hload as (_ & Hstream & Hchrome & _ & Hsess & _).
    specialize (Hsess eq_refl).
    destruct (videoResumes env) as [e|]; cbn.
    { split; [done|]. intros Hfalse. congruence. }
    pose proof (analyzeFrame_session cfg (analysis env) (world p2)) as Hkeep.
    destruct (analyzeFrame cfg (analysis env) (world p2)) as [cycle w'].
    cbn in *. split.
    + intros _. rewrite Hkeep, Hsess, Hstream. done.
    + intros Hfalse. congruence.
  - destruct Hload as (_ & _ & Hchrome & _ & _ & Hfail).
    split; [done|]. intros _. rewrite Hchrome. cbn. by rewrite Hw.
Qed.

(** X15: the popup runs only with a camera stream and a loaded model.  If
    [startCamera] leaves the popup running, the stream is held, the model
    is loaded and the stop button is enabled; if the model is not loaded
    afterwards, no analysis has run: store, rules and messages are what
    they were. *)
Theorem startCamera_running_needs_model (cfg : Config) (env : CameraEnv)
  (p : Popup) :
  running p = false ->
  let p' := startCamera cfg env p in
  (running p' = true ->
   stream p' = true /\ session (state (world p')) = true
   /\ stopBtnDisabled p' = false)
  /\ (session (state (world p')) = false ->
      chrome (world p') = chrome (world p) /\ running p' = false).
Proof.
  intros Hrun. unfold startCamera. rewrite Hrun.
  unfold checkConsent.
  destruct (consentReadThrows env); cbn; [by rewrite Hrun|].
  destruct (truthyVal _); cbn; [|by rewrite Hrun].
  match goal with
  | |- context [startCamera_try cfg env ?q] =>
      pose proof (startCamera_try_state cfg env q) as Htry;
      destruct (startCamera_try cfg env q) as [[e|] p1]
  end; cbn in *.
  - destruct Htry as [_ Hchrome].
    destruct (cameraFailed_state e p1) as (Hw & Hr & _).
    rewrite Hw, Hr. split; [done|]. intros Hs. split; [by apply Hchrome|done].
  - destruct Htry as [Hok Hchrome].
    destruct (Hok eq_refl) as (Hr & Hst & Hs & Hb).
    split; [done|]. intros Hfalse. congruence.
Qed.

(** The path of [startCamera] on which nothing fails. *)
Lemma startCamera_granted (cfg : Config) (env : CameraEnv) (p : Popup) :
  running p = false ->
  consentReadThrows env = false ->
  truthyVal (local (chrome (world p)) !! "consentGiven") = true ->
  mediaDevicesAvailable env = true ->
  idealRequest env = None ->
  videoReady env = None ->
  session (state (world p)) = true ->
  videoResumes env = None ->
  let p' := startCamera cfg env p in
  running p' = true
  /\ world p' = (analyzeFrame cfg (analysis env) (world p)).2
  /\ cameraRequests p' = S (cameraRequests p).
Proof.
  intros Hrun Hread Hconsent Hmedia Hideal Hready Hsess Hresume.
  unfold startCamera. rewrite Hrun, (checkConsent_true env p Hread Hconsent).
  cbn. unfold startCamera_try, requestCamera, loadModels.
  rewrite Hmedia, Hideal, Hready. cbn.
  destruct (hasDetector p); cbn; rewrite Hsess, Hresume; cbn;
    by destruct (analyzeFrame cfg (analysis env) (world p)).
Qed.

Lemma popupConsented_consent :
  truthyVal (local (chrome (world popupConsented)) !! "consentGiven") = true.
Proof.
  cbn. rewrite lookup_insert_ne by done. by rewrite lookup_insert_eq.
Qed.

Lemma startCamera_running_needs_model_witness :
  running (startCamera CONFIG cameraEnvOk popupConsented) = true
  /\ stream (startCamera CONFIG cameraEnvOk popupConsented) = true
  /\ session (state (world (startCamera CONFIG cameraEnvOk popupConsented)))
     = true.
Proof.
  destruct (startCamera_running_needs_model CONFIG cameraEnvOk popupConsented
              eq_refl) as [Hrunning _].
  destruct (startCamera_granted CONFIG cameraEnvOk popupConsented
              eq_refl eq_refl popupConsented_consent eq_refl eq_refl eq_refl
              eq_refl eq_refl) as (Hr & _).
  destruct (Hrunning Hr) as (Hs & Hm & _). done.
Defined.

Lemma stopCamera_state (p : Popup) :
  stream (stopCamera p) = false
  /\ running (stopCamera p) = false
  /\ world (stopCamera p) = world p.
Proof.
  unfold stopCamera.
  destruct (stream p) eqn:Hs, (running p) eqn:Hr; cbn; by rewrite ?Hs, ?Hr.
Qed.

(** X16: a start that fails after the camera was granted.  If the stream is
    granted and then the video does not get ready, or the model cannot be
    loaded, [startCamera] ends with the stream still held, not running,
    the start button enabled and the stop button disabled, and without
    any effect on store, rules and messages; [stopCamera] then releases
    the stream. *)
Theorem startCamera_failure_keeps_stream (cfg : Config) (env : CameraEnv)
  (p : Popup) :
  running p = false ->
  consentReadThrows env = false ->
  truthyVal (local (chrome (world p)) !! "consentGiven") = true ->
  mediaDevicesAvailable env = true ->
  idealRequest env = None ->
  videoReady env <> None
  \/ (session (state (world p)) = false /\ modelLoads env = false) ->
  let p' := startCamera cfg env p in
  stream p' = true
  /\ running p' = false
  /\ startBtnDisabled p' = false
  /\ stopBtnDisabled p' = true
  /\ chrome (world p') = chrome (world p)
  /\ stream (stopCamera p') = false
  /\ running (stopCamera p') = false.
Proof.
  intros Hrun Hread Hconsent Hmedia Hideal Hfail p'.
  assert (Hstate : stream p' = true /\ running p' = false
                   /\ startBtnDisabled p' = false /\ stopBtnDisabled p' = true
                   /\ chrome (world p') = chrome (world p)).
  { unfold p', startCamera.
    rewrite Hrun, (checkConsent_true env p Hread Hconsent).
    cbn. unfold startCamera_try, requestCamera.
    rewrite Hmedia, Hideal. cbn.
    destruct (videoReady env) as [e|] eqn:Hready.
    - destruct (cameraFailed_state e
        (mkPopup (world p) (running p) true (hasDetector p)
           "Requesting camera access..." true true false
           (consentWindows p) (S (cameraRequests p))))
        as (-> & -> & -> & -> & -> & _). done.
    - destruct Hfail as [Hfail|[Hsess Hmodel]]; [done|].
      unfold loadModels. rewrite Hmodel.
      destruct (hasDetector p); cbn; rewrite Hsess;
        match goal with
        | |- context [cameraFailed ?e ?q] =>
            destruct (cameraFailed_state e q)
              as (-> & -> & -> & -> & -> & _)
        end; done. }
  destruct (stopCamera_state p') as (Hs & Hr & _).
  destruct Hstate as (? & ? & ? & ? & ?). done.
Qed.

Lemma startCamera_failure_keeps_stream_witness :
  let env := mkCameraEnv false true None None
               (Some (newError "Video timeout")) true true None
               (envSink Delivered None) in
  stream (startCamera CONFIG env popupConsented) = true
  /\ stopBtnDisabled (startCamera CONFIG env popupConsented) = true
  /\ stream (stopCamera (startCamera CONFIG env popupConsented)) = false.
Proof.
  intros env.
  destruct (startCamera_failure_keeps_stream CONFIG env popupConsented
              eq_refl eq_refl popupConsented_consent eq_refl eq_refl)
    as (Hs & _ & _ & Hb & _ & Hstop & _); [left; discriminate|].
  done.
Defined.

(** X17: the camera is asked a second time exactly when the first request
    fails with [OverconstrainedError].  A denied permission
    ([NotAllowedError] or [PermissionDeniedError]) ends the start with the
    access-denied status and the settings button shown, not running, and
    with the world of the analysis untouched. *)
Theorem camera_request_fallback (cfg : Config) (env : CameraEnv)
  (p : Popup) (constraintError : JsError) :
  running p = false ->
  consentReadThrows env = false ->
  truthyVal (local (chrome (world p)) !! "consentGiven") = true ->
  mediaDevicesAvailable env = true ->
  idealRequest env = Some constraintError ->
  let p' := startCamera cfg env p in
  cameraRequests p'
  = (if decide (name constraintError = "OverconstrainedError")
     then S (S (cameraRequests p)) else S (cameraRequests p))
  /\ (name constraintError = "NotAllowedError"
      \/ name constraintError = "PermissionDeniedError" ->
      running p' = false
      /\ openSettingsShown p' = true
      /\ statusText p' = cameraDeniedStatus
      /\ stream p' = stream p
      /\ world p' = world p).
Proof.
  intros Hrun Hread Hconsent Hmedia Hideal p'. split.
  - unfold p', startCamera.
    rewrite Hrun, (checkConsent_true env p Hread Hconsent).
    cbn. unfold startCamera_try, requestCamera.
    rewrite Hmedia, Hideal. cbn.
    destruct (decide (name constraintError = "OverconstrainedError"))
      as [Hover|Hover].
    + destruct (fallbackRequest env) as [e|]; cbn.
      { by destruct (cameraFailed_state e
          (mkPopup (world p) (running p) (stream p) (hasDetector p)
             "Requesting camera access..." true true false
             (consentWindows p) (S (S (cameraRequests p)))))
          as (_ & _ & _ & _ & _ & -> & _). }
      destruct (videoReady env) as [e|]; cbn.
      { by destruct (cameraFailed_state e
          (mkPopup (world p) (running p) true (hasDetector p)
             "Requesting camera access..." true true false
             (consentWindows p) (S (S (cameraRequests p)))))
          as (_ & _ & _ & _ & _ & -> & _). }
      match goal with
      | |- context [loadModels env ?q] =>
          pose proof (loadModels_state env q) as Hload;
          destruct (loadModels env q) as [[|] p2]
      end; cbn in *; destruct Hload as (_ & _ & _ & Hreq & _).
      * destruct (videoResumes env) as [e|]; cbn.
        { match goal with
          | |- context [cameraFailed ?e ?q] =>
              destruct (cameraFailed_state e q)
                as (_ & _ & _ & _ & _ & -> & _)
          end. done. }
        by destruct (analyzeFrame cfg (analysis env) (world p2)).
      * match goal with
        | |- context [cameraFailed ?e ?q] =>
            destruct (cameraFailed_state e q)
              as (_ & _ & _ & _ & _ & -> & _)
        end. done.
    + destruct (decide _); cbn;
        match goal with
        | |- context [cameraFailed ?e ?q] =>
            destruct (cameraFailed_state e q)
              as (_ & _ & _ & _ & _ & -> & _)
        end; done.
  - intros Hdenied. unfold p', startCamera.
    rewrite Hrun, (checkConsent_true env p Hread Hconsent).
    cbn. unfold startCamera_try, requestCamera.
    rewrite Hmedia, Hideal. cbn.
    rewrite decide_False by (destruct Hdenied as [-> | ->]; done).
    rewrite decide_True by done. cbn. done.
Qed.

Lemma camera_request_fallback_witness :
  let env := mkCameraEnv false true
               (Some (mkJsError "OverconstrainedError" "")) None None
               true true None (envSink Delivered None) in
  cameraRequests (startCamera CONFIG env popupConsented) = 2%nat.
Proof.
  intros env.
  destruct (camera_request_fallback CONFIG env popupConsented
              (mkJsError "OverconstrainedError" "")
              eq_refl eq_refl popupConsented_consent eq_refl eq_refl)
    as [Hreq _].
  exact Hreq.
Defined.

(** ** Region selection *)

Lemma Zceil_IZR (z : Z) : Zceil (IZR z) = z.
Proof. apply Zceil_eq. lra. Qed.

Lemma paddingPercent_range (cfg : Config) (overridePaddingPct : option R) :
  overridePaddingPct <> None \/ (0 <= FACE_PADDING cfg <= 50)%Z ->
  0 <= paddingPercent cfg overridePaddingPct / 100 <= 0.5.
Proof.
  intros Hpad. unfold paddingPercent.
  destruct overridePaddingPct as [pct|].
  - pose proof (Rmax_Rmin_bounds 0 50 pct ltac:(lra)). lra.
  - destruct Hpad as [Hpad|[Hlo Hhi]]; [done|].
    apply IZR_le in Hlo, Hhi. lra.
Qed.

(** The padding in pixels is never negative and at most half the face. *)
Lemma pad_bounds (size : Z) (padding : R) :
  (0 <= size)%Z -> 0 <= padding <= 0.5 ->
  (0 <= Zfloor (IZR size * padding))%Z
  /\ (2 * Zfloor (IZR size * padding) <= size)%Z.
Proof.
  intros Hsize Hpad. apply IZR_le in Hsize.
  pose proof (Zfloor_bound (IZR size * padding)) as [Hfl _].
  split.
  - apply Zfloor_lub. nra.
  - apply le_IZR. rewrite mult_IZR. nra.
Qed.

Lemma largestFaceLoop_spec (faces : list Face.t) (largest : Face.t)
  (maxArea : R) :
  let chosen := largestFaceLoop faces largest maxArea in
  (chosen = largest /\ Forall (fun f => faceArea f <= maxArea) faces)
  \/ (chosen ∈ faces /\ faceArea chosen > maxArea
      /\ Forall (fun f => faceArea f <= faceArea chosen) faces).
Proof.
  revert largest maxArea.
  induction faces as [|face rest IH]; intros largest maxArea; cbn.
  - left. split; [done|constructor].
  - destruct (decide (faceArea face > maxArea)) as [Hgt|Hle].
    + right. destruct (IH face (faceArea face)) as [[-> Hall]|(Hin & Hg & Hall)].
      * split; [by left|]. split; [done|]. constructor; [lra|done].
      * split; [by right|]. split; [lra|]. constructor; [lra|done].
    + destruct (IH largest maxArea) as [[Heq Hall]|(Hin & Hg & Hall)].
      * left. split; [done|]. constructor; [lra|done].
      * right. split; [by right|]. split; [done|]. constructor; [lra|done].
Qed.

(** X18: the face that is cropped is a detected one of largest area.  The
    choice is one of the faces, and no face has a larger area; only when
    no face has a positive area is the first face kept instead. *)
Theorem largestFace_is_largest (faces : list Face.t) (face : Face.t) :
  largestFace faces = Some face ->
  face ∈ faces
  /\ (Forall (fun f => faceArea f <= faceArea face) faces
      \/ (Forall (fun f => faceArea f <= 0) faces /\ head faces = Some face)).
Proof.
  destruct faces as [|face0 rest]; [done|].
  intros Hsel.
  assert (Hface : face = largestFaceLoop (face0 :: rest) face0 0)
    by (unfold largestFace in Hsel; congruence).
  pose proof (largestFaceLoop_spec (face0 :: rest) face0 0) as Hspec.
  cbv zeta in Hspec. rewrite <- Hface in Hspec.
  destruct Hspec as [[Heq Hall]|(Hin & Hg & Hall)].
  - rewrite Heq. split; [by left|]. right. done.
  - split; [done|]. by left.
Qed.

Lemma largestFace_is_largest_witness :
  largestFace [faceSmall; faceMiddle] = Some faceMiddle
  /\ faceArea faceSmall <= faceArea faceMiddle.
Proof.
  assert (Hsel : largestFace [faceSmall; faceMiddle] = Some faceMiddle).
  { unfold largestFace. cbn [largestFaceLoop].
    rewrite decide_True by (unfold faceArea; cbn; lra).
    rewrite decide_True by (unfold faceArea; cbn; lra). done. }
  split; [exact Hsel|].
  destruct (largestFace_is_largest [faceSmall; faceMiddle] faceMiddle Hsel)
    as (_ & [Hall|[Hall _]]).
  - by apply Forall_cons in Hall as [? _].
  - apply Forall_cons in Hall as [_ Hall]. apply Forall_cons in Hall as [H _].
    unfold faceArea in *. cbn in *. lra.
Defined.

(** X19: a crop never leaves the canvas.  Whenever [cropFaceRegion] crops,
    the rectangle starts at non-negative coordinates and ends inside the
    width and the height of the source canvas, for every list of faces
    and every padding. *)
Theorem cropFaceRegion_inside_canvas (cfg : Config) (sourceCanvas : Canvas.t)
  (faces : option (list Face.t)) (overridePaddingPct : option R)
  (cropX cropY cropWidth cropHeight : Z) :
  cropFaceRegion cfg sourceCanvas faces overridePaddingPct
  = Cropped cropX cropY cropWidth cropHeight ->
  (0 <= cropX)%Z /\ (0 <= cropY)%Z
  /\ (cropX + cropWidth <= Canvas.width sourceCanvas)%Z
  /\ (cropY + cropHeight <= Canvas.height sourceCanvas)%Z.
Proof.
  unfold cropFaceRegion. destruct faces as [faces|]; [|done].
  destruct (largestFace faces) as [face|]; [|done].
  unfold cropLargest. cbv zeta. destruct (decide _); [done|].
  intros [= <- <- <- <-]. lia.
Qed.

Lemma crop_faceMiddle :
  cropFaceRegion CONFIG canvas640 (Some [faceMiddle]) (Some 25)
  = Cropped 175 125 150 150.
Proof.
  unfold cropFaceRegion, largestFace. cbn [largestFaceLoop].
  rewrite decide_True by (unfold faceArea; cbn; lra).
  unfold cropLargest, faceMiddle, paddingPercent. cbn.
  rewrite !ZfloorZ, !Zceil_IZR. cbn.
  rewrite decide_False by (unfold MIN_FACE_SIZE; lia).
  change (300 - 200)%Z with 100%Z. change (250 - 150)%Z with 100%Z.
  assert (Hpad : Zfloor (IZR 100 * (Rmax 0 (Rmin 50 25) / 100)) = 25%Z).
  { apply Zfloor_eq. rewrite Rmax_Rmin_id by lra. lra. }
  rewrite Hpad. done.
Qed.

Lemma cropFaceRegion_inside_canvas_witness :
  (175 + 150 <= Canvas.width canvas640)%Z
  /\ (125 + 150 <= Canvas.height canvas640)%Z.
Proof.
  destruct (cropFaceRegion_inside_canvas CONFIG canvas640 (Some [faceMiddle])
              (Some 25) 175 125 150 150 crop_faceMiddle)
    as (_ & _ & Hw & Hh).
  split; assumption.
Defined.

(** X20: the crop contains the face.  If the largest face lies inside the
    canvas and measures at least the minimum size in both directions, and
    the padding is not negative, then [cropFaceRegion] crops, the
    rectangle contains the whole face box, and it is at least the minimum
    size in both directions. *)
Theorem cropFaceRegion_contains_face (cfg : Config) (sourceCanvas : Canvas.t)
  (faces : list Face.t) (overridePaddingPct : option R) (face : Face.t) :
  largestFace faces = Some face ->
  0 <= (Face.topLeft face).1 -> 0 <= (Face.topLeft face).2 ->
  (Face.bottomRight face).1 <= IZR (Canvas.width sourceCanvas) ->
  (Face.bottomRight face).2 <= IZR (Canvas.height sourceCanvas) ->
  (MIN_FACE_SIZE
   <= Zceil (Face.bottomRight face).1 - Zfloor (Face.topLeft face).1)%Z ->
  (MIN_FACE_SIZE
   <= Zceil (Face.bottomRight face).2 - Zfloor (Face.topLeft face).2)%Z ->
  overridePaddingPct <> None \/ (0 <= FACE_PADDING cfg <= 50)%Z ->
  exists cropX cropY cropWidth cropHeight : Z,
    cropFaceRegion cfg sourceCanvas (Some faces) overridePaddingPct
    = Cropped cropX cropY cropWidth cropHeight
    /\ IZR cropX <= (Face.topLeft face).1
    /\ (Face.bottomRight face).1 <= IZR (cropX + cropWidth)
    /\ IZR cropY <= (Face.topLeft face).2
    /\ (Face.bottomRight face).2 <= IZR (cropY + cropHeight)
    /\ (MIN_FACE_SIZE <= cropWidth)%Z
    /\ (MIN_FACE_SIZE <= cropHeight)%Z.
Proof.
  intros Hsel Hx1 Hy1 Hx2 Hy2 Hw Hh Hpad.
  pose proof (paddingPercent_range cfg overridePaddingPct Hpad) as Hrange.
  unfold cropFaceRegion. rewrite Hsel. unfold cropLargest. cbv zeta.
  rewrite decide_False by lia.
  set (x1 := Zfloor (Face.topLeft face).1) in *.
  set (y1 := Zfloor (Face.topLeft face).2) in *.
  set (x2 := Zceil (Face.bottomRight face).1) in *.
  set (y2 := Zceil (Face.bottomRight face).2) in *.
  unfold MIN_FACE_SIZE in *.
  destruct (pad_bounds (x2 - x1) _ ltac:(lia) Hrange) as [HpadX _].
  destruct (pad_bounds (y2 - y1) _ ltac:(lia) Hrange) as [HpadY _].
  pose proof (Zfloor_bound (Face.topLeft face).1) as [Hfx _].
  pose proof (Zfloor_bound (Face.topLeft face).2) as [Hfy _].
  pose proof (Zceil_bound (Face.bottomRight face).1) as [_ Hcx].
  pose proof (Zceil_bound (Face.bottomRight face).2) as [_ Hcy].
  fold x1 in Hfx. fold y1 in Hfy. fold x2 in Hcx. fold y2 in Hcy.
  assert (Hx1z : (0 <= x1)%Z) by (apply Zfloor_lub; lra).
  assert (Hy1z : (0 <= y1)%Z) by (apply Zfloor_lub; lra).
  assert (Hx2z : (x2 <= Canvas.width sourceCanvas)%Z).
  { unfold x2, Zceil. apply Z.opp_le_mono. rewrite Z.opp_involutive.
    apply Zfloor_lub. rewrite opp_IZR. lra. }
  assert (Hy2z : (y2 <= Canvas.height sourceCanvas)%Z).
  { unfold y2, Zceil. apply Z.opp_le_mono. rewrite Z.opp_involutive.
    apply Zfloor_lub. rewrite opp_IZR. lra. }
  do 4 eexists. split; [reflexivity|].
  set (padX := Zfloor (IZR (x2 - x1) * _)) in *.
  set (padY := Zfloor (IZR (y2 - y1) * _)) in *.
  assert (Hcx1 : (Z.max 0 (x1 - padX) <= x1)%Z) by lia.
  assert (Hcy1 : (Z.max 0 (y1 - padY) <= y1)%Z) by lia.
  assert (Hcx2 : (x2 <= Z.max 0 (x1 - padX)
                        + Z.min (Canvas.width sourceCanvas
                                 - Z.max 0 (x1 - padX))
                                (x2 - x1 + 2 * padX))%Z) by lia.
  assert (Hcy2 : (y2 <= Z.max 0 (y1 - padY)
                        + Z.min (Canvas.height sourceCanvas
                                 - Z.max 0 (y1 - padY))
                                (y2 - y1 + 2 * padY))%Z) by lia.
  apply IZR_le in Hcx1, Hcy1, Hcx2, Hcy2.
  split; [lra|]. split; [lra|]. split; [lra|]. split; [lra|].
  split; lia.
Qed.

Lemma faceMiddle_largest : largestFace [faceMiddle] = Some faceMiddle.
Proof.
  unfold largestFace. cbn [largestFaceLoop].
  by rewrite decide_True by (unfold faceArea; cbn; lra).
Qed.

Lemma cropFaceRegion_contains_face_witness :
  exists cropX cropY cropWidth cropHeight : Z,
    cropFaceRegion CONFIG canvas640 (Some [faceMiddle]) (Some 25)
    = Cropped cropX cropY cropWidth cropHeight
    /\ IZR cropX <= 200 /\ 300 <= IZR (cropX + cropWidth).
Proof.
  destruct (cropFaceRegion_contains_face CONFIG canvas640 [faceMiddle]
              (Some 25) faceMiddle faceMiddle_largest)
    as (x & y & cw & ch & Hcrop & Hl & Hr & _).
  - cbn. lra.
  - cbn. lra.
  - cbn. lra.
  - cbn. lra.
  - cbn. rewrite ZfloorZ, Zceil_IZR. unfold MIN_FACE_SIZE. lia.
  - cbn. rewrite ZfloorZ, Zceil_IZR. unfold MIN_FACE_SIZE. lia.
  - left. discriminate.
  - exists x, y, cw, ch. done.
Defined.

(** X21: the padding is clamped.  Whatever percentage is passed as
    override, also one far above 50 or below 0, the crop is at most twice
    as wide and twice as high as the face box, and starts at most half a
    face width to the left of it and half a face height above it. *)
Theorem cropFaceRegion_padding_clamped (cfg : Config)
  (sourceCanvas : Canvas.t) (faces : list Face.t) (pct : R) (face : Face.t)
  (cropX cropY cropWidth cropHeight : Z) :
  largestFace faces = Some face ->
  cropFaceRegion cfg sourceCanvas (Some faces) (Some pct)
  = Cropped cropX cropY cropWidth cropHeight ->
  let faceWidth :=
    (Zceil (Face.bottomRight face).1 - Zfloor (Face.topLeft face).1)%Z in
  let faceHeight :=
    (Zceil (Face.bottomRight face).2 - Zfloor (Face.topLeft face).2)%Z in
  (cropWidth <= 2 * faceWidth)%Z
  /\ (cropHeight <= 2 * faceHeight)%Z
  /\ (2 * Zfloor (Face.topLeft face).1 - faceWidth <= 2 * cropX)%Z
  /\ (2 * Zfloor (Face.topLeft face).2 - faceHeight <= 2 * cropY)%Z.
Proof.
  intros Hsel. unfold cropFaceRegion. rewrite Hsel.
  unfold cropLargest. cbv zeta.
  destruct (decide _) as [|Hbig]; [done|].
  unfold MIN_FACE_SIZE in Hbig.
  pose proof (paddingPercent_range cfg (Some pct) ltac:(by left)) as Hrange.
  destruct (pad_bounds
              (Zceil (Face.bottomRight face).1 - Zfloor (Face.topLeft face).1)
              _ ltac:(lia) Hrange) as [HpadX HpadX2].
  destruct (pad_bounds
              (Zceil (Face.bottomRight face).2 - Zfloor (Face.topLeft face).2)
              _ ltac:(lia) Hrange) as [HpadY HpadY2].
  intros [= <- <- <- <-]. cbv zeta. unfold paddingPercent in *. lia.
Qed.

Lemma crop_faceMiddle_1000 :
  cropFaceRegion CONFIG canvas640 (Some [faceMiddle]) (Some 1000)
  = Cropped 150 100 200 200.
Proof.
  unfold cropFaceRegion. rewrite faceMiddle_largest.
  unfold cropLargest, faceMiddle, paddingPercent. cbn.
  rewrite !ZfloorZ, !Zceil_IZR. cbn.
  rewrite decide_False by (unfold MIN_FACE_SIZE; lia).
  change (300 - 200)%Z with 100%Z. change (250 - 150)%Z with 100%Z.
  assert (Hpad : Zfloor (IZR 100 * (Rmax 0 (Rmin 50 1000) / 100)) = 50%Z).
  { apply Zfloor_eq.
    assert (Hclamp : Rmax 0 (Rmin 50 1000) = 50) by minmax.
    rewrite Hclamp. lra. }
  rewrite Hpad. done.
Qed.

Lemma cropFaceRegion_padding_clamped_witness :
  (200 <= 2 * (Zceil (Face.bottomRight faceMiddle).1
               - Zfloor (Face.topLeft faceMiddle).1))%Z.
Proof.
  destruct (cropFaceRegion_padding_clamped CONFIG canvas640 [faceMiddle]
              1000 faceMiddle 150 100 200 200 faceMiddle_largest
              crop_faceMiddle_1000) as (Hw & _).
  exact Hw.
Defined.

(** ** Face detection *)

Lemma filter_none (faces : list Face.t) :
  Forall (fun face => ~ confident face) faces -> filter confident faces = [].
Proof.
  induction 1 as [|face faces Hno _ IH]; [done|].
  by rewrite filter_cons_False.
Qed.

(** X22: the confidence filter never loses all faces.  When the detector
    returns a non-empty list, [detectAndDrawFaces] returns a non-empty
    list of faces taken from it, in the same order: the confident ones if
    there is one, and otherwise all of them. *)
Theorem detectAndDrawFaces_keeps_a_face (results : list Face.t) :
  results <> [] ->
  exists faces : list Face.t,
    detectAndDrawFaces true (Detects (Some results)) = Some faces
    /\ faces <> []
    /\ faces `sublist_of` results
    /\ ((exists face, face ∈ results /\ confident face) ->
        faces = filter confident results /\ Forall confident faces)
    /\ (Forall (fun face => ~ confident face) results -> faces = results).
Proof.
  intros Hne. destruct results as [|face0 rest]; [done|].
  unfold detectAndDrawFaces.
  destruct (decide (length (filter confident (face0 :: rest)) = 0%nat))
    as [Hzero|Hpos].
  - exists (face0 :: rest). split; [done|]. split; [done|].
    split; [reflexivity|]. split; [|done].
    intros (face & Hin & Hconf). exfalso.
    apply length_zero_iff_nil in Hzero.
    by apply (filter_nil_not_elem_of confident (face0 :: rest) face).
  - exists (filter confident (face0 :: rest)). split; [done|].
    split; [by intros Hnil; rewrite Hnil in Hpos|].
    split; [apply sublist_filter|]. split.
    + intros _. split; [done|].
      apply Forall_forall. intros face Hin.
      by apply list_elem_of_filter in Hin as [? _].
    + intros Hnone. exfalso. apply Hpos.
      by rewrite (filter_none _ Hnone).
Qed.

Lemma detectAndDrawFaces_keeps_a_face_witness :
  exists faces : list Face.t,
    detectAndDrawFaces true (Detects (Some [faceSmall])) = Some faces
    /\ faces <> [].
Proof.
  destruct (detectAndDrawFaces_keeps_a_face [faceSmall])
    as (faces & Hrun & Hne & _); [discriminate|].
  exists faces. done.
Defined.

(** What the filter returns, for the composition with the crop. *)
Lemma detectAndDrawFaces_keeps (results : list Face.t) :
  results <> [] ->
  exists faces : list Face.t,
    detectAndDrawFaces true (Detects (Some results)) = Some faces
    /\ (forall face, face ∈ faces -> face ∈ results).
Proof.
  intros Hne. destruct results as [|face0 rest]; [done|].
  unfold detectAndDrawFaces.
  destruct (decide _).
  - by exists (face0 :: rest).
  - eexists. split; [done|]. intros face Hin.
    by apply list_elem_of_filter in Hin as [_ ?].
Qed.

(** X23: a missing or failing detector means the full frame.  Without a
    detector, when the detection throws, and when it finds nothing, the
    region handed to the preprocessing is the source canvas itself, for
    every padding. *)
Theorem no_detection_gives_full_frame :
  forall (cfg : Config) (sourceCanvas : Canvas.t)
         (overridePaddingPct : option R) (outcome : DetectOutcome),
    cropFaceRegion cfg sourceCanvas (detectAndDrawFaces false outcome)
                   overridePaddingPct = FullFrame
    /\ cropFaceRegion cfg sourceCanvas (detectAndDrawFaces true DetectThrows)
                      overridePaddingPct = FullFrame
    /\ cropFaceRegion cfg sourceCanvas
                      (detectAndDrawFaces true (Detects None))
                      overridePaddingPct = FullFrame
    /\ cropFaceRegion cfg sourceCanvas
                      (detectAndDrawFaces true (Detects (Some [])))
                      overridePaddingPct = FullFrame
    /\ (forall hasDetector : bool,
          cropFaceRegion cfg sourceCanvas
                         (detectAndDrawFaces hasDetector outcome)
                         overridePaddingPct = FullFrame
          \/ exists results face,
               outcome = Detects (Some results) /\ face ∈ results
               /\ (MIN_FACE_SIZE
                   <= Zceil (Face.bottomRight face).1
                      - Zfloor (Face.topLeft face).1)%Z
               /\ (MIN_FACE_SIZE
                   <= Zceil (Face.bottomRight face).2
                      - Zfloor (Face.topLeft face).2)%Z).
Proof.
  intros cfg sourceCanvas overridePaddingPct outcome.
  split_and!; try done.
  intros [|]; [|by left].
  destruct outcome as [|[results|]]; [by left| |by left].
  destruct results as [|face0 rest]; [by left|].
  destruct (detectAndDrawFaces_keeps (face0 :: rest) ltac:(done))
    as (faces & Hrun & Hsub).
  rewrite Hrun. unfold cropFaceRegion.
  destruct (largestFace faces) as [face|] eqn:Hsel; [|by left].
  unfold cropLargest. cbv zeta.
  destruct (decide _) as [|Hbig]; [by left|].
  right. exists (face0 :: rest), face. split; [done|].
  split; [|lia].
  apply Hsub. destruct faces as [|f fs]; [done|].
  pose proof (largestFaceLoop_spec (f :: fs) f 0) as Hspec.
  cbv zeta in Hspec.
  assert (Hface : face = largestFaceLoop (f :: fs) f 0)
    by (unfold largestFace in Hsel; congruence).
  rewrite <- Hface in Hspec.
  destruct Hspec as [[-> _]|[Hin _]]; [by left|done].
Qed.

(** ** Normalisation *)

Lemma normalizeStep_length (n : nat) (pixels : list Z) (tensor : list R)
  (i : nat) :
  length (normalizeStep n pixels tensor i) = length tensor.
Proof. unfold normalizeStep. by rewrite !length_insert. Qed.

Lemma normalizeLoop_length (n : nat) (pixels : list Z) (tensor : list R)
  (indices : list nat) :
  length (fold_left (normalizeStep n pixels) indices tensor) = length tensor.
Proof.
  revert tensor. induction indices as [|i indices IH]; intros tensor; [done|].
  cbn [fold_left]. by rewrite IH, normalizeStep_length.
Qed.

Lemma normalizeLoop_lookup (n : nat) (pixels : list Z) (tensor : list R)
  (k : nat) :
  length tensor = (3 * n)%nat ->
  (k <= n)%nat ->
  forall c i : nat,
    (c < 3)%nat -> (i < k)%nat ->
    fold_left (normalizeStep n pixels) (seq 0 k) tensor !! (c * n + i)%nat
    = Some (normalized pixels c i).
Proof.
  intros Hlen. induction k as [|k IH]; intros Hk c i Hc Hi; [lia|].
  rewrite seq_S, fold_left_app. cbn [fold_left Nat.add].
  set (sofar := fold_left (normalizeStep n pixels) (seq 0 k) tensor) in *.
  assert (Hsofar : length sofar = (3 * n)%nat)
    by (unfold sofar; by rewrite normalizeLoop_length).
  unfold normalizeStep. cbv zeta.
  destruct (decide (i = k)) as [->|Hne].
  - unfold normalized.
    destruct c as [|[|[|c]]]; [| | |lia].
    + rewrite list_lookup_insert_ne by lia.
      rewrite list_lookup_insert_ne by lia.
      rewrite list_lookup_insert_eq by lia.
      by rewrite Nat.add_0_r.
    + rewrite list_lookup_insert_ne by lia.
      replace (1 * n + k)%nat with (n + k)%nat by lia.
      rewrite list_lookup_insert_eq by (rewrite length_insert; lia). done.
    + rewrite list_lookup_insert_eq by (rewrite !length_insert; lia). done.
  - rewrite !list_lookup_insert_ne
      by (destruct c as [|[|[|c]]]; lia).
    apply IH; lia.
Qed.

Lemma normalize_length (TARGET_SIZE : nat) (pixels : list Z) :
  length (normalize TARGET_SIZE pixels)
  = (3 * (TARGET_SIZE * TARGET_SIZE))%nat.
Proof.
  unfold normalize. by rewrite normalizeLoop_length, length_replicate.
Qed.

(** X24: the layout of the tensor.  For the 4 S^2 bytes of an image of
    S x S pixels the normalisation produces 3 S^2 numbers, plane by plane:
    entry [c S^2 + i] is byte [c] of pixel [i] (red, green, blue), scaled
    to [0,1], minus the mean of the channel and divided by its standard
    deviation. *)
Theorem normalize_layout (TARGET_SIZE : nat) (pixels : list Z) :
  let n := (TARGET_SIZE * TARGET_SIZE)%nat in
  length pixels = (4 * n)%nat ->
  length (normalize TARGET_SIZE pixels) = (3 * n)%nat
  /\ forall c i : nat,
       (c < 3)%nat -> (i < n)%nat ->
       exists byte : Z,
         pixels !! (i * 4 + c)%nat = Some byte
         /\ normalize TARGET_SIZE pixels !! (c * n + i)%nat
            = Some ((IZR byte / 255 - MEAN !!! c) / STD !!! c).
Proof.
  intros n Hlen. split; [apply normalize_length|].
  intros c i Hc Hi. exists (pixels !!! (i * 4 + c)%nat). split.
  - apply list_lookup_lookup_total_lt. lia.
  - unfold normalize. fold n.
    apply (normalizeLoop_lookup n pixels (replicate (3 * n) 0) n);
      [by rewrite length_replicate|lia|done|done].
Qed.

Lemma normalize_layout_witness :
  length (normalize 1 [255%Z; 0%Z; 128%Z; 255%Z]) = 3%nat.
Proof.
  apply (normalize_layout 1 [255%Z; 0%Z; 128%Z; 255%Z]). reflexivity.
Defined.

Lemma normalize_lookup (TARGET_SIZE : nat) (pixels : list Z) (j : nat) :
  let n := (TARGET_SIZE * TARGET_SIZE)%nat in
  (j < 3 * n)%nat ->
  exists c i : nat,
    (c < 3)%nat /\ (i < n)%nat /\ j = (c * n + i)%nat
    /\ normalize TARGET_SIZE pixels !! j = Some (normalized pixels c i).
Proof.
  intros n Hj.
  assert (Hn : n <> 0%nat) by lia.
  exists (j / n)%nat, (j mod n)%nat.
  assert (Hdiv : (j / n < 3)%nat) by (apply Nat.Div0.div_lt_upper_bound; lia).
  assert (Hmod : (j mod n < n)%nat) by (by apply Nat.mod_upper_bound).
  assert (Heq : j = (j / n * n + j mod n)%nat).
  { rewrite (Nat.div_mod_eq j n) at 1. lia. }
  split; [done|]. split; [done|]. split; [done|].
  rewrite Heq at 1. unfold normalize. fold n.
  apply (normalizeLoop_lookup n pixels (replicate (3 * n) 0) n);
    [by rewrite length_replicate|lia|done|done].
Qed.

Lemma pixel_byte (pixels : list Z) (idx : nat) :
  Forall (fun p => 0 <= p <= 255)%Z pixels ->
  (0 <= pixels !!! idx <= 255)%Z.
Proof.
  intros Hall. destruct (pixels !! idx) as [p|] eqn:Hp.
  - rewrite (list_lookup_total_correct _ _ _ Hp).
    by apply (Forall_lookup_1 _ _ _ _ Hall Hp).
  - rewrite list_lookup_total_alt, Hp. cbn. lia.
Qed.

(** X25: the range of the tensor.  For the 4 S^2 bytes of an image, each
    between 0 and 255, every entry of the tensor lies between -2.2 and 2.7
    (between (0 - mean)/std and (1 - mean)/std of its channel). *)
Theorem normalize_range (TARGET_SIZE : nat) (pixels : list Z) :
  length pixels = (4 * (TARGET_SIZE * TARGET_SIZE))%nat ->
  Forall (fun p => 0 <= p <= 255)%Z pixels ->
  Forall (fun v => -2.2 <= v <= 2.7) (normalize TARGET_SIZE pixels).
Proof.
  intros _ Hbytes. apply Forall_lookup. intros j v Hv.
  assert (Hj : (j < 3 * (TARGET_SIZE * TARGET_SIZE))%nat).
  { apply lookup_lt_Some in Hv.
    by rewrite (normalize_length TARGET_SIZE pixels) in Hv. }
  destruct (normalize_lookup TARGET_SIZE pixels j Hj)
    as (c & i & Hc & _ & _ & Hlook).
  rewrite Hlook in Hv. injection Hv as <-.
  unfold normalized.
  destruct (pixel_byte pixels (i * 4 + c) Hbytes) as [Hlo Hhi].
  apply IZR_le in Hlo, Hhi.
  destruct c as [|[|[|c]]]; [| | |lia]; cbn; lra.
Qed.

Lemma normalize_range_witness :
  Forall (fun v => -2.2 <= v <= 2.7)
         (normalize 1 [255%Z; 0%Z; 128%Z; 255%Z]).
Proof.
  apply normalize_range; [reflexivity|]. repeat constructor; lia.
Defined.

Lemma normalize_same_rgb (TARGET_SIZE : nat) (pixels1 pixels2 : list Z) :
  normalize TARGET_SIZE pixels1 = normalize TARGET_SIZE pixels2
  <-> forall c i : nat,
        (c < 3)%nat -> (i < TARGET_SIZE * TARGET_SIZE)%nat ->
        pixels1 !!! (i * 4 + c)%nat = pixels2 !!! (i * 4 + c)%nat.
Proof.
  split.
  - intros Heq c i Hc Hi.
    pose proof (normalizeLoop_lookup _ pixels1
                  (replicate (3 * (TARGET_SIZE * TARGET_SIZE)) 0)
                  (TARGET_SIZE * TARGET_SIZE)
                  ltac:(by rewrite length_replicate) ltac:(lia) c i Hc Hi)
      as H1.
    pose proof (normalizeLoop_lookup _ pixels2
                  (replicate (3 * (TARGET_SIZE * TARGET_SIZE)) 0)
                  (TARGET_SIZE * TARGET_SIZE)
                  ltac:(by rewrite length_replicate) ltac:(lia) c i Hc Hi)
      as H2.
    fold (normalize TARGET_SIZE pixels1) in H1.
    fold (normalize TARGET_SIZE pixels2) in H2.
    rewrite Heq, H2 in H1. injection H1 as H1. unfold normalized in H1.
    apply eq_IZR.
    destruct c as [|[|[|c]]]; [| | |lia]; cbn in H1; lra.
  - intros Hrgb. apply list_eq. intros j.
    destruct (decide (j < 3 * (TARGET_SIZE * TARGET_SIZE))%nat) as [Hj|Hj].
    + destruct (normalize_lookup TARGET_SIZE pixels1 j Hj)
        as (c & i & Hc & Hi & Hji & H1).
      pose proof (normalizeLoop_lookup _ pixels2
                    (replicate (3 * (TARGET_SIZE * TARGET_SIZE)) 0)
                    (TARGET_SIZE * TARGET_SIZE)
                    ltac:(by rewrite length_replicate) ltac:(lia) c i Hc Hi)
        as H2.
      fold (normalize TARGET_SIZE pixels2) in H2.
      rewrite H1, Hji, H2. unfold normalized. by rewrite Hrgb.
    + rewrite !lookup_ge_None_2;
        [done|rewrite (normalize_length TARGET_SIZE pixels2); lia
        |rewrite (normalize_length TARGET_SIZE pixels1); lia].
Qed.

(** X26: the tensor holds exactly the colour channels.  Two pixel arrays of
    an S x S image give the same tensor if and only if they agree on the
    red, green and blue byte of every pixel; the alpha bytes make no
    difference, and different colours never give the same tensor. *)
Theorem normalize_determined_by_rgb (TARGET_SIZE : nat)
  (pixels1 pixels2 : list Z) :
  length pixels1 = (4 * (TARGET_SIZE * TARGET_SIZE))%nat ->
  length pixels2 = (4 * (TARGET_SIZE * TARGET_SIZE))%nat ->
  normalize TARGET_SIZE pixels1 = normalize TARGET_SIZE pixels2
  <-> forall c i : nat,
        (c < 3)%nat -> (i < TARGET_SIZE * TARGET_SIZE)%nat ->
        pixels1 !! (i * 4 + c)%nat = pixels2 !! (i * 4 + c)%nat.
Proof.
  intros Hlen1 Hlen2. rewrite normalize_same_rgb.
  split; intros Hrgb c i Hc Hi; specialize (Hrgb c i Hc Hi).
  - rewrite (list_lookup_lookup_total_lt pixels1) by lia.
    rewrite (list_lookup_lookup_total_lt pixels2) by lia.
    by rewrite Hrgb.
  - rewrite (list_lookup_lookup_total_lt pixels1) in Hrgb by lia.
    rewrite (list_lookup_lookup_total_lt pixels2) in Hrgb by lia.
    by injection Hrgb.
Qed.

Lemma normalize_determined_by_rgb_witness :
  normalize 1 [255%Z; 0%Z; 128%Z; 255%Z]
  = normalize 1 [255%Z; 0%Z; 128%Z; 0%Z].
Proof.
  apply (normalize_determined_by_rgb 1); [reflexivity|reflexivity|].
  intros [|[|[|c]]] [|i] Hc Hi; (done || lia).
Defined.

(** ** The two interpreters *)

(** X27: [interpretModelOutput] and [interpretOutputToProbability] agree.
    The first throws exactly where the second returns [null]; otherwise
    they give the same probability, a number of [0,1] or NaN.  On a number
    p the first adds a verdict with the threshold 0.5 and the confidence
    |2 p - 1|, a number in [0,1]; its verdict differs from the one
    [analyzeFrame] draws from the same probability exactly for
    0.5 <= p < 0.52.  On NaN the verdict is MINOR and the confidence is
    NaN. *)
Theorem interpretModelOutput_agrees :
  forall outputData : option (list Number.t),
    match JS.interpretModelOutput outputData with
    | Ok r =>
        JS.interpretOutputToProbability outputData
        = Some (Interpretation.probability r)
        /\ Interpretation.rawProbability r = Interpretation.probability r
        /\ match Interpretation.probability r with
           | Number.Finite p =>
               0 <= p <= 1
               /\ (Interpretation.prediction r = MAJOR <-> p >= 0.5)
               /\ (Interpretation.isMinor r = true <-> p < 0.5)
               /\ Interpretation.confidence r
                  = Number.Finite (Rabs (2 * p - 1))
               /\ 0 <= Rabs (2 * p - 1) <= 1
               /\ (Interpretation.prediction r <> prediction p
                   <-> 0.5 <= p < 0.52)
           | Number.NaN =>
               Interpretation.prediction r = MINOR
               /\ Interpretation.isMinor r = true
               /\ Interpretation.confidence r = Number.NaN
           | _ => False
           end
    | Err _ => JS.interpretOutputToProbability outputData = None
    end.
Proof.
  assert (Hrecord : forall q : R,
    0 <= q <= 1 ->
    let prediction05 := if bool_decide (q >= 0.5) then MAJOR else MINOR in
    (prediction05 = MAJOR <-> q >= 0.5)
    /\ (bool_decide (prediction05 = MINOR) = true <-> q < 0.5)
    /\ Rabs (q + Ropp 0.5) * 2 = Rabs (2 * q - 1)
    /\ 0 <= Rabs (2 * q - 1) <= 1
    /\ (prediction05 <> prediction q <-> 0.5 <= q < 0.52)).
  { intros q Hq prediction05. unfold prediction05, prediction, MAJOR_THRESHOLD.
    rewrite bool_decide_eq_true.
    assert (Habs : Rabs (q + Ropp 0.5) * 2 = Rabs (2 * q - 1)).
    { unfold Rabs. repeat destruct Rcase_abs; lra. }
    split; [|split; [|split; [exact Habs|split]]].
    - case_bool_decide; split; intros; try done; lra.
    - case_bool_decide; split; intros; try done; lra.
    - unfold Rabs. destruct Rcase_abs; lra.
    - case_bool_decide; destruct (decide (q >= 0.52));
        split; intros; try done; lra. }
  assert (Hafter : forall probability : Number.t,
    let clamped :=
      Number.max (Number.Finite 0)
        (Number.min (Number.Finite 1) probability) in
    let prediction05 :=
      if Number.ge clamped (Number.Finite 0.5) then MAJOR else MINOR in
    match clamped with
    | Number.Finite p =>
        0 <= p <= 1
        /\ (prediction05 = MAJOR <-> p >= 0.5)
        /\ (bool_decide (prediction05 = MINOR) = true <-> p < 0.5)
        /\ Number.mul (Number.abs (Number.sub clamped (Number.Finite 0.5)))
             (Number.Finite 2)
           = Number.Finite (Rabs (2 * p - 1))
        /\ 0 <= Rabs (2 * p - 1) <= 1
        /\ (prediction05 <> prediction p <-> 0.5 <= p < 0.52)
    | Number.NaN =>
        prediction05 = MINOR
        /\ bool_decide (prediction05 = MINOR) = true
        /\ Number.mul (Number.abs (Number.sub clamped (Number.Finite 0.5)))
             (Number.Finite 2)
           = Number.NaN
    | _ => False
    end).
  { intros probability clamped prediction05. unfold prediction05, clamped.
    rewrite Number_clamp.
    assert (Hfinite : forall q : R, 0 <= q <= 1 ->
      0 <= q <= 1
      /\ ((if Number.ge (Number.Finite q) (Number.Finite 0.5)
           then MAJOR else MINOR) = MAJOR <-> q >= 0.5)
      /\ (bool_decide
            ((if Number.ge (Number.Finite q) (Number.Finite 0.5)
              then MAJOR else MINOR) = MINOR) = true <-> q < 0.5)
      /\ Number.mul
           (Number.abs (Number.sub (Number.Finite q) (Number.Finite 0.5)))
           (Number.Finite 2)
         = Number.Finite (Rabs (2 * q - 1))
      /\ 0 <= Rabs (2 * q - 1) <= 1
      /\ ((if Number.ge (Number.Finite q) (Number.Finite 0.5)
           then MAJOR else MINOR) <> prediction q <-> 0.5 <= q < 0.52)).
    { intros q Hq. destruct (Hrecord q Hq) as (H1 & H2 & H3 & H4 & H5).
      cbn. rewrite H3. done. }
    destruct probability as [q| | |].
    - apply Hfinite. apply Rmax_Rmin_bounds. lra.
    - done.
    - apply Hfinite. lra.
    - apply Hfinite. lra. }
  intros [[|x [|y [|z rest]]]|]; try done.
  - unfold JS.interpretModelOutput, JS.interpretOutputToProbability.
    cbv zeta. cbn [Interpretation.probability Interpretation.rawProbability
                   Interpretation.prediction Interpretation.isMinor
                   Interpretation.confidence].
    split; [done|]. split; [done|]. apply Hafter.
  - unfold JS.interpretModelOutput, JS.interpretOutputToProbability.
    cbv zeta. cbn [Interpretation.probability Interpretation.rawProbability
                   Interpretation.prediction Interpretation.isMinor
                   Interpretation.confidence].
    split; [done|]. split; [done|]. apply Hafter.
Qed.
